(** * The UCB thought selector of [cltl.thoughts.thought_selection.rl_selector]

    A shallow embedding of the class [UCB] (upper confidence bound bandit
    over composite actions) and the properties of its selection, update,
    reward and persistence methods.

    Numbers.  Python [int] is [Z].  Python [float] is modelled by the real
    numbers [R]: rounding, overflow and signed zeros are not modelled.  The
    values numpy produces ([np.log], [np.sqrt], [np.inf], [np.mean]) live in
    [npfloat], the reals extended with the two infinities and NaN, so that
    numpy's behaviour outside the real domain of a function (a warning and a
    special value, never an exception) is kept.

    Strings.  Actions and tokens are [string]s of ASCII characters;
    [split] is [str.split()] on ASCII whitespace.

    Effects.  The object is the record [UCB]; a method is a function from
    the object to an [outcome], which is either a result with the new object
    or a raised exception with the object as it was when it was raised. *)

From Stdlib Require Import Reals Lra ZArith Ascii.
From stdpp Require Import gmap strings list fin_maps.

(** ** Python and numpy numbers *)

#[global] Instance R_eq_dec : EqDecision R := Req_dec_T.
#[global] Instance Rlt_rel_dec : RelDecision Rlt := Rlt_dec.
#[global] Instance Rle_rel_dec : RelDecision Rle := Rle_dec.

(** [np.float64] results: a real, [inf], [-inf] or [nan]. *)
Inductive npfloat : Type :=
  | Fin (r : R)
  | PInf
  | NInf
  | NaN.

(** The infinity carrying the sign of [r]; [nan] when [r] is zero
    (as in [0 * inf] and [0 / 0]). *)
Definition inf_signed (r : R) : npfloat :=
  if decide (0 < r)%R then PInf
  else if decide (r < 0)%R then NInf
  else NaN.

Definition np_add (x y : npfloat) : npfloat :=
  match x, y with
  | NaN, _ | _, NaN => NaN
  | Fin a, Fin b => Fin (a + b)
  | PInf, NInf | NInf, PInf => NaN
  | PInf, _ | _, PInf => PInf
  | NInf, _ | _, NInf => NInf
  end.

Definition np_mul (x y : npfloat) : npfloat :=
  match x, y with
  | NaN, _ | _, NaN => NaN
  | Fin a, Fin b => Fin (a * b)
  | Fin a, PInf | PInf, Fin a => inf_signed a
  | Fin a, NInf | NInf, Fin a => inf_signed (- a)
  | PInf, PInf | NInf, NInf => PInf
  | PInf, NInf | NInf, PInf => NInf
  end.

(** [x / n] for a numpy float [x] and a Python [int] [n]: no exception,
    division by zero gives an infinity or [nan]. *)
Definition np_div_int (x : npfloat) (n : Z) : npfloat :=
  match x with
  | NaN => NaN
  | Fin a => if decide (n = 0)%Z then inf_signed a else Fin (a / IZR n)
  | PInf => if decide (0 <= n)%Z then PInf else NInf
  | NInf => if decide (0 <= n)%Z then NInf else PInf
  end.

(** [np.sqrt]. *)
Definition np_sqrt (x : npfloat) : npfloat :=
  match x with
  | Fin a => if decide (a < 0)%R then NaN else Fin (sqrt a)
  | PInf => PInf
  | NInf | NaN => NaN
  end.

(** [np.log] of a Python [int]. *)
Definition np_log (t : Z) : npfloat :=
  if decide (0 < t)%Z then Fin (ln (IZR t))
  else if decide (t = 0)%Z then NInf
  else NaN.

(** [x > y] on numpy floats; every comparison with [nan] is false. *)
Definition np_gtb (x y : npfloat) : bool :=
  match x, y with
  | NaN, _ | _, NaN => false
  | Fin a, Fin b => bool_decide (b < a)%R
  | PInf, PInf => false
  | PInf, _ => true
  | _, PInf => false
  | NInf, _ => false
  | Fin _, NInf => true
  end.

(** [np.mean] of a list: the sum divided by the length ([nan] for the empty
    list, which numpy computes as [0 / 0]). *)
Definition np_sum (l : list npfloat) : npfloat := foldl np_add (Fin 0) l.

Definition np_mean (l : list npfloat) : npfloat :=
  np_div_int (np_sum l) (Z.of_nat (length l)).

(** Python's two-argument [max(x, y)]: [y] when [y > x], else [x]. *)
Definition py_max (x y : R) : R := if decide (x < y)%R then y else x.

(** ** [str.split()] *)

(** ASCII characters for which [str.isspace] holds:
    tab, newline, vertical tab, form feed, carriage return (9 to 13),
    the four separators 28 to 31, and the space. *)
Definition is_space (ch : ascii) : bool :=
  let n := nat_of_ascii ch in
  ((9 <=? n)%nat && (n <=? 13)%nat)
  || ((28 <=? n)%nat && (n <=? 31)%nat)
  || (n =? 32)%nat.

Definition flush_word (word : string) (rest : list string) : list string :=
  match word with
  | EmptyString => rest
  | _ => word :: rest
  end.

Fixpoint split_from (word : string) (s : string) : list string :=
  match s with
  | EmptyString => flush_word word []
  | String ch s' =>
      if is_space ch then flush_word word (split_from EmptyString s')
      else split_from (word +:+ String ch EmptyString) s'
  end.

(** [action.split()]: the maximal runs of non-whitespace characters. *)
Definition split (s : string) : list string := split_from EmptyString s.

(** ** The object and its methods' outcomes *)

Record UCB : Type := mkUCB {
  _Q : gmap string R;
  _N : gmap string Z;
  _t : Z;
  _c : R;
  _decay : R;
  _state_history : list R;
  _reward_history : list R;
  _last_thought : option string;
}.

Definition with_Q (f : gmap string R → gmap string R) (s : UCB) : UCB :=
  mkUCB (f (_Q s)) (_N s) (_t s) (_c s) (_decay s)
        (_state_history s) (_reward_history s) (_last_thought s).
Definition with_N (f : gmap string Z → gmap string Z) (s : UCB) : UCB :=
  mkUCB (_Q s) (f (_N s)) (_t s) (_c s) (_decay s)
        (_state_history s) (_reward_history s) (_last_thought s).
Definition with_t (t : Z) (s : UCB) : UCB :=
  mkUCB (_Q s) (_N s) t (_c s) (_decay s)
        (_state_history s) (_reward_history s) (_last_thought s).
Definition with_c (c : R) (s : UCB) : UCB :=
  mkUCB (_Q s) (_N s) (_t s) c (_decay s)
        (_state_history s) (_reward_history s) (_last_thought s).
Definition with_decay (d : R) (s : UCB) : UCB :=
  mkUCB (_Q s) (_N s) (_t s) (_c s) d
        (_state_history s) (_reward_history s) (_last_thought s).
Definition with_state_history (h : list R) (s : UCB) : UCB :=
  mkUCB (_Q s) (_N s) (_t s) (_c s) (_decay s)
        h (_reward_history s) (_last_thought s).
Definition with_reward_history (h : list R) (s : UCB) : UCB :=
  mkUCB (_Q s) (_N s) (_t s) (_c s) (_decay s)
        (_state_history s) h (_last_thought s).
Definition with_last_thought (a : option string) (s : UCB) : UCB :=
  mkUCB (_Q s) (_N s) (_t s) (_c s) (_decay s)
        (_state_history s) (_reward_history s) a.

Inductive exn : Type :=
  | KeyError
  | IndexError
  | ZeroDivisionError
  | ValueError.

Inductive outcome (A : Type) : Type :=
  | Ok (a : A) (s : UCB)
  | Raise (e : exn) (s : UCB).
Arguments Ok {A} a s.
Arguments Raise {A} e s.

(** The object as an outcome leaves it, returned or raised. *)
Definition final {A} (o : outcome A) : UCB :=
  match o with
  | Ok _ s => s
  | Raise _ s => s
  end.

(** A method body: it reads and mutates [self] and may raise. *)
Definition M (A : Type) : Type := UCB → outcome A.

Definition ret {A} (a : A) : M A := λ s, Ok a s.
Definition raise {A} (e : exn) : M A := λ s, Raise e s.
Definition bind {A B} (m : M A) (k : A → M B) : M B :=
  λ s, match m s with
       | Ok a s' => k a s'
       | Raise e s' => Raise e s'
       end.
Definition gets {A} (f : UCB → A) : M A := λ s, Ok (f s) s.
Definition modify (f : UCB → UCB) : M unit := λ s, Ok tt (f s).

Notation "'let!' x ':=' m 'in' k" := (bind m (λ x, k))
  (at level 10, x name, m at level 100, k at level 200,
   format "'[v' 'let!'  x  ':='  m  'in'  '/' k ']'").
Notation "'exec' m 'in' k" := (bind m (λ _, k))
  (at level 10, m at level 100, k at level 200,
   format "'[v' 'exec'  m  'in'  '/' k ']'").

Fixpoint mapM {A B} (f : A → M B) (l : list A) : M (list B) :=
  match l with
  | [] => ret []
  | x :: l' => let! y := f x in let! ys := mapM f l' in ret (y :: ys)
  end.

Fixpoint foldM {A B} (f : B → A → M B) (b : B) (l : list A) : M B :=
  match l with
  | [] => ret b
  | x :: l' => let! b' := f b x in foldM f b' l'
  end.

Fixpoint forM_ {A} (f : A → M unit) (l : list A) : M unit :=
  match l with
  | [] => ret tt
  | x :: l' => exec f x in forM_ f l'
  end.

(** [self._Q[k]] and [self._N[k]] as expressions: [KeyError] when absent. *)
Definition getQ (k : string) : M R :=
  λ s, match _Q s !! k with
       | Some v => Ok v s
       | None => Raise KeyError s
       end.
Definition getN (k : string) : M Z :=
  λ s, match _N s !! k with
       | Some n => Ok n s
       | None => Raise KeyError s
       end.
(** [self._Q[k] = v] and [self._N[k] = n]. *)
Definition setQ (k : string) (v : R) : M unit := modify (with_Q (insert k v)).
Definition setN (k : string) (n : Z) : M unit := modify (with_N (insert k n)).

(** Python's [x / y] on Python numbers. *)
Definition py_div (x y : R) : M R :=
  if decide (y = 0)%R then raise ZeroDivisionError else ret (x / y)%R.

(** ** Learning *)

(** [UCB._uncertainty]. *)
Definition _uncertainty (action : string) : M npfloat :=
  let! c := gets _c in
  let! t := gets _t in
  let! n := getN action in
  ret (np_mul (Fin c) (np_sqrt (np_div_int (np_log t) n))).

(** The body of the loop of [UCB.update_utility]. *)
Definition update_elem (reward : R) (elem : string) : M unit :=
  let! n := getN elem in
  exec setN elem (n + 1)%Z in
  let! q := getQ elem in
  let! q' := getQ elem in
  let! n' := getN elem in
  let! d := py_div (reward - q') (IZR n') in
  setQ elem (q + d)%R.

(** [UCB.update_utility]. *)
Definition update_utility (action : string) (reward : R) : M unit :=
  exec forM_ (update_elem reward) (split action) in
  let! t := gets _t in
  exec modify (with_t (t + 1)%Z) in
  let! c := gets _c in
  let! d := gets _decay in
  modify (with_c (py_max (c - d) 0)).

(** Python's truth value of [self._last_thought]: [None] and the empty
    string are false. *)
Definition truthy (a : option string) : bool :=
  match a with
  | None | Some EmptyString => false
  | Some _ => true
  end.

(** [l[-k]] for [k >= 1]. *)
Definition index_from_end (l : list R) (k : nat) : M R :=
  match (if decide (k ≤ length l)%nat then l !! (length l - k)%nat else None) with
  | Some x => ret x
  | None => raise IndexError
  end.

(** [UCB.reward_thought].  The state evaluator is an external collaborator:
    [brain_state] is the number its call returns. *)
Definition reward_thought (brain_state : R) : M unit :=
  let! h := gets _state_history in
  exec modify (with_state_history (h ++ [brain_state])) in
  let! last := gets _last_thought in
  let! h' := gets _state_history in
  match last with
  | Some action =>
      if truthy last && bool_decide (1 < length h')%nat then
        let! new_state := index_from_end h' 1 in
        let! old_state := index_from_end h' 2 in
        let! reward := py_div new_state old_state in
        exec update_utility action reward in
        let! rh := gets _reward_history in
        modify (with_reward_history (rh ++ [reward]))
      else ret tt
  | None => ret tt
  end.

(** ** Selection *)

(** Modelled from the spec: [ThoughtSelector._preprocess] is not in this
    module; the selector accepts the candidate actions in their raw
    whitespace-joined token-string form. *)
Definition _preprocess (actions : list string) : M (list string) :=
  ret actions.

(** Modelled from the spec: [ThoughtSelector._postprocess] is not in this
    module; the returned action is recorded as the last action and is the
    result. *)
Definition _postprocess (actions : list string) (selected_action : string)
  : M string :=
  exec modify (with_last_thought (Some selected_action)) in
  ret selected_action.

(** The body of the inner loop of [UCB.select]: the score of one element. *)
Definition score_elem (elem : string) : M npfloat :=
  let! q := gets _Q in
  exec (if bool_decide (q !! elem = None)
        then exec setQ elem 0 in setN elem 0
        else ret tt) in
  let! n := getN elem in
  if bool_decide (n = 0)%Z then ret PInf
  else
    let! v := getQ elem in
    let! u := _uncertainty elem in
    ret (np_add (Fin v) u).

(** The body of the outer loop: an action with the mean of its scores. *)
Definition score_action (action : string) : M (string * npfloat) :=
  let! score := mapM score_elem (split action) in
  ret (action, np_mean score).

(** [max(rest, key=lambda x: x[1])] with [best] the maximum so far: a later
    item replaces it only when its key is greater. *)
Fixpoint max_from (best : string * npfloat) (rest : list (string * npfloat))
  : string * npfloat :=
  match rest with
  | [] => best
  | x :: rest' =>
      if np_gtb (snd x) (snd best) then max_from x rest'
      else max_from best rest'
  end.

Definition py_max_key (l : list (string * npfloat)) : M (string * npfloat) :=
  match l with
  | [] => raise ValueError
  | x :: rest => ret (max_from x rest)
  end.

(** [UCB.select]; the selected action stands for the one-entry dict the
    method builds from it. *)
Definition select (actions : list string) : M string :=
  let! actions := _preprocess actions in
  let! action_scores := mapM score_action actions in
  let! selected := py_max_key action_scores in
  _postprocess actions (fst selected).

(** ** Persistence *)

(** One entry of the [data] object of a saved file. *)
Record entry : Type := mkEntry {
  value : R;
  count : Z;
  uncertainty : npfloat;
}.

(** The JSON document of a saved file. *)
Record saved : Type := mkSaved {
  metadata_c : R;
  metadata_t : Z;
  metadata_decay : R;
  data : gmap string entry;
}.

(** The files that hold a saved document, by name. *)
Abbreviation files := (gmap string saved).

(** The body of the loop of [UCB.load]. *)
Definition load_entry (kv : string * entry) : M unit :=
  exec setQ (fst kv) (value (snd kv)) in
  setN (fst kv) (count (snd kv)).

(** [UCB.load]. *)
Definition load (fs : files) (filename : option string) : M unit :=
  match filename with
  | None => ret tt
  | Some name =>
      match fs !! name with
      | None => ret tt
      | Some doc =>
          exec modify (with_c (metadata_c doc)) in
          exec modify (with_t (metadata_t doc)) in
          exec modify (with_decay (metadata_decay doc)) in
          forM_ load_entry (map_to_list (data doc))
      end
  end.

(** The body of the loop of [UCB.save]. *)
Definition save_entry (d : gmap string entry) (action : string)
  : M (gmap string entry) :=
  let! n := getN action in
  if bool_decide (0 < n)%Z then
    let! v := getQ action in
    let! n' := getN action in
    let! u := _uncertainty action in
    ret (<[action := mkEntry v n' u]> d)
  else ret d.

(** [UCB.save]: the result is the file system after the write. *)
Definition save (fs : files) (filename : string) : M files :=
  let! c := gets _c in
  let! t := gets _t in
  let! decay := gets _decay in
  let! q := gets _Q in
  let! d := foldM save_entry ∅ (map_to_list q).*1 in
  ret (<[filename := mkSaved c t decay d]> fs).

(** ** Construction *)

(** The object before [__init__] has run. *)
Definition blank : UCB := mkUCB ∅ ∅ 0 0 0 [] [] None.

(** [UCB.__init__]; [brain_state] is what the state evaluator returns for
    the configured metric.  Modelled from the spec: the superclass
    initialiser is not in this module; it leaves the last action unset. *)
Definition __init__ (fs : files) (brain_state : R) (savefile : option string)
    (c tmax : R) : M unit :=
  exec modify (with_last_thought None) in
  exec modify (with_Q (λ _, ∅)) in
  exec modify (with_N (λ _, ∅)) in
  exec modify (with_t 1) in
  exec modify (with_c c) in
  let! d := py_div c tmax in
  exec modify (with_decay d) in
  exec modify (with_state_history [brain_state]) in
  exec modify (with_reward_history [0%R]) in
  load fs savefile.

(** ** [BrainEvaluator] *)

(** The brain is an external store; the evaluator only asks it for counts.
    A [brain] holds what those calls return: [count_triples()],
    [count_statements()], [count_perspectives()], the length of
    [get_all_negation_conflicts()] and [count_friends()]. *)
Record brain : Type := mkBrain {
  count_triples : Z;
  count_statements : Z;
  count_perspectives : Z;
  negation_conflicts : nat;
  count_friends : Z;
}.

(** The outcome of a function that has no object to mutate. *)
Inductive pyresult (A : Type) : Type :=
  | Returns (a : A)
  | Raises (e : exn).
Arguments Returns {A} a.
Arguments Raises {A} e.

(** Python's [x / y] on Python numbers, outside a method of [UCB]. *)
Definition true_div (x y : R) : pyresult R :=
  if decide (y = 0)%R then Raises ZeroDivisionError else Returns (x / y)%R.

(** [BrainEvaluator.evaluate_brain_state]: [None] unless the metric is one
    of the four the chain of tests knows. *)
Definition evaluate_brain_state (b : brain) (metric : string)
  : pyresult (option R) :=
  if decide (metric = "Total triples") then
    Returns (Some (IZR (count_triples b)))
  else if decide (metric = "Ratio claims to triples") then
    match true_div (IZR (count_statements b)) (IZR (count_triples b)) with
    | Returns x => Returns (Some x)
    | Raises e => Raises e
    end
  else if decide (metric = "Ratio perspectives to claims") then
    match true_div (IZR (count_perspectives b)) (IZR (count_statements b)) with
    | Returns x => Returns (Some x)
    | Raises e => Raises e
    end
  else if decide (metric = "Ratio conflicts to claims") then
    match true_div (IZR (Z.of_nat (negation_conflicts b)))
                   (IZR (count_statements b)) with
    | Returns x => Returns (Some x)
    | Raises e => Raises e
    end
  else Returns None.

(** The thoughts of a brain response, as [calculate_brain_statistics] reads
    them: [T] is the type of the items of the lists, [V] that of the
    values it copies without looking at them. *)
Record thoughts (T V : Type) : Type := mkThoughts {
  _complement_conflict : option (list T);
  _negation_conflicts : option (list T);
  _subject_gaps : option (list T);
  _complement_gaps : option (list T);
  _statement_novelty : option (list T);
  _entity_novelty_subject : V;
  _entity_novelty_complement : V;
  _overlaps_subject : option (list T);
  _overlaps_complement : option (list T);
  _trust : V;
}.
Arguments mkThoughts {T V}.
Arguments _complement_conflict {T V}.
Arguments _negation_conflicts {T V}.
Arguments _subject_gaps {T V}.
Arguments _complement_gaps {T V}.
Arguments _statement_novelty {T V}.
Arguments _entity_novelty_subject {T V}.
Arguments _entity_novelty_complement {T V}.
Arguments _overlaps_subject {T V}.
Arguments _overlaps_complement {T V}.
Arguments _trust {T V}.

(** [len(x) if x else 0]: [None] and the empty list are both false. *)
Definition len_or_0 {T} (x : option (list T)) : Z :=
  match x with
  | Some (y :: l) => Z.of_nat (length (y :: l))
  | Some [] | None => 0
  end.

(** The dict [calculate_brain_statistics] returns, a field per key. *)
Record statistics (V : Type) : Type := mkStatistics {
  stat_turn : V;
  stat_cardinality_conflicts : Z;
  stat_negation_conflicts : Z;
  stat_subject_gaps : Z;
  stat_object_gaps : Z;
  stat_statement_novelty : Z;
  stat_subject_novelty : V;
  stat_object_novelty : V;
  stat_overlaps_subject_predicate : Z;
  stat_overlaps_predicate_object : Z;
  stat_trust : V;
  stat_total_triples : Z;
  stat_total_claims : Z;
  stat_total_perspectives : Z;
  stat_total_conflicts : Z;
  stat_total_sources : Z;
  stat_ratio_claims_to_triples : R;
  stat_ratio_perspectives_to_triples : R;
  stat_ratio_conflicts_to_triples : R;
  stat_ratio_perspectives_to_claims : R;
  stat_ratio_conflicts_to_claims : R;
}.
Arguments mkStatistics {V}.
Arguments stat_total_triples {V}.
Arguments stat_total_claims {V}.
Arguments stat_total_perspectives {V}.
Arguments stat_total_conflicts {V}.
Arguments stat_total_sources {V}.
Arguments stat_cardinality_conflicts {V}.
Arguments stat_negation_conflicts {V}.
Arguments stat_subject_gaps {V}.
Arguments stat_object_gaps {V}.
Arguments stat_statement_novelty {V}.
Arguments stat_overlaps_subject_predicate {V}.
Arguments stat_overlaps_predicate_object {V}.
Arguments stat_ratio_claims_to_triples {V}.
Arguments stat_ratio_perspectives_to_triples {V}.
Arguments stat_ratio_conflicts_to_triples {V}.
Arguments stat_ratio_perspectives_to_claims {V}.
Arguments stat_ratio_conflicts_to_claims {V}.

Definition bind_result {A B} (m : pyresult A) (k : A → pyresult B)
  : pyresult B :=
  match m with
  | Returns a => k a
  | Raises e => Raises e
  end.

(** [BrainEvaluator.calculate_brain_statistics]; [turn] is
    [brain_response['statement']['turn']] and [th] is
    [brain_response['thoughts']].  The basic statistics are gathered
    first, the five ratios are then computed from them in the order of
    the source. *)
Definition calculate_brain_statistics {T V} (b : brain) (turn : V)
    (th : thoughts T V) : pyresult (statistics V) :=
  let total_triples := count_triples b in
  let total_claims := count_statements b in
  let total_perspectives := count_perspectives b in
  let total_conflicts := Z.of_nat (negation_conflicts b) in
  bind_result (true_div (IZR total_claims) (IZR total_triples)) (λ r1,
  bind_result (true_div (IZR total_perspectives) (IZR total_triples)) (λ r2,
  bind_result (true_div (IZR total_conflicts) (IZR total_triples)) (λ r3,
  bind_result (true_div (IZR total_perspectives) (IZR total_claims)) (λ r4,
  bind_result (true_div (IZR total_conflicts) (IZR total_claims)) (λ r5,
  Returns
    (mkStatistics turn
       (len_or_0 (_complement_conflict th))
       (len_or_0 (_negation_conflicts th))
       (len_or_0 (_subject_gaps th))
       (len_or_0 (_complement_gaps th))
       (len_or_0 (_statement_novelty th))
       (_entity_novelty_subject th)
       (_entity_novelty_complement th)
       (len_or_0 (_overlaps_subject th))
       (len_or_0 (_overlaps_complement th))
       (_trust th)
       total_triples total_claims total_perspectives total_conflicts
       (count_friends b)
       r1 r2 r3 r4 r5)))))).

(** * Notions used in the statements *)

(** ** Tokens and table entries *)

(** Number of times [tok] occurs in a token list. *)
Fixpoint occurrences (tok : string) (l : list string) : nat :=
  match l with
  | [] => 0
  | x :: l' => (if decide (x = tok) then 1 else 0) + occurrences tok l'
  end.

(** The entries of [k]: both tables hold it and the count is not negative. *)
Definition tracked (s : UCB) (k : string) : Prop :=
  is_Some (_Q s !! k) ∧ ∃ n, _N s !! k = Some n ∧ (0 <= n)%Z.

(** Everything but the two tables. *)
Definition same_rest (s s' : UCB) : Prop :=
  _t s' = _t s ∧ _c s' = _c s ∧ _decay s' = _decay s
  ∧ _state_history s' = _state_history s
  ∧ _reward_history s' = _reward_history s
  ∧ _last_thought s' = _last_thought s.

(** One successful iteration of the loop, as a function. *)
Definition step_elem (reward : R) (elem : string) (q : R) (n : Z) (s : UCB)
  : UCB :=
  with_Q (insert elem (q + (reward - q) / IZR (n + 1))%R)
         (with_N (insert elem (n + 1)%Z) s).

(** ** Sequences of calls *)

(** A sequence of [update_utility] calls, each an action and a reward. *)
Definition update_calls (calls : list (string * R)) : M unit :=
  forM_ (λ ar, update_utility (fst ar) (snd ar)) calls.

Definition Rsum (l : list R) : R := foldr Rplus 0%R l.

(** The arithmetic mean of a list of rewards. *)
Definition arithmetic_mean (l : list R) : R :=
  (Rsum l / IZR (Z.of_nat (length l)))%R.

(** [preserves Rel m]: whether [m] returns or raises, the object it leaves
    is related by [Rel] to the one it started from. *)
Definition preserves (Rel : UCB → UCB → Prop) {A} (m : M A) : Prop :=
  ∀ s, Rel s (final (m s)).

(** The hyperparameters. *)
Definition same_hyper (s s' : UCB) : Prop :=
  _t s' = _t s ∧ _c s' = _c s ∧ _decay s' = _decay s.

(** A call of one of the methods that run after construction. *)
Inductive call : Type :=
  | CallSelect (actions : list string)
  | CallUpdate (action : string) (reward : R)
  | CallReward (brain_state : R)
  | CallSave (fs : files) (filename : string).

(** The object after a call, returned or raised. *)
Definition after_call (s : UCB) (c : call) : UCB :=
  match c with
  | CallSelect actions => final (select actions s)
  | CallUpdate action reward => final (update_utility action reward s)
  | CallReward brain_state => final (reward_thought brain_state s)
  | CallSave fs filename => final (save fs filename s)
  end.

Definition after_calls (calls : list call) (s : UCB) : UCB :=
  foldl after_call s calls.

(** The invariant of the data model, at timestep [_t s], for the initial
    exploration constant [c0] and the decay rate [d]. *)
Definition on_schedule (c0 d : R) (s : UCB) : Prop :=
  _decay s = d ∧ (1 <= _t s)%Z
  ∧ _c s = Rmax (c0 - d * IZR (_t s - 1)) 0.

Definition keeps_schedule (c0 d : R) (s s' : UCB) : Prop :=
  on_schedule c0 d s → on_schedule c0 d s'.

(** Every count in the table is that of a tracked token. *)
Definition counts_tracked (s : UCB) : Prop :=
  ∀ k n, _N s !! k = Some n → (0 <= n)%Z ∧ is_Some (_Q s !! k).

(** ** Saved documents and scores, read off the object *)

(** The uncertainty [_uncertainty] computes for a count [n]. *)
Definition uncertainty_at (s : UCB) (n : Z) : npfloat :=
  np_mul (Fin (_c s)) (np_sqrt (np_div_int (np_log (_t s)) n)).

(** The entry [save] writes for a token: none unless its count is positive. *)
Definition saved_entry (s : UCB) (k : string) : option entry :=
  match _Q s !! k, _N s !! k with
  | Some q, Some n =>
      if bool_decide (0 < n)%Z then Some (mkEntry q n (uncertainty_at s n))
      else None
  | _, _ => None
  end.

(** A document with its [uncertainty] fields rewritten by [g]. *)
Definition with_uncertainties (g : entry → npfloat) (doc : saved) : saved :=
  mkSaved (metadata_c doc) (metadata_t doc) (metadata_decay doc)
    ((λ e, mkEntry (value e) (count e) (g e)) <$> data doc).

(** The statement that [load] of an existing file replaces the whole of
    both tables by the contents of the document. *)
Definition load_replaces_tables (fs : files) (name : string) (s : UCB)
  : Prop :=
  ∀ doc, fs !! name = Some doc →
    ∃ s', load fs (Some name) s = Ok tt s'
      ∧ _c s' = metadata_c doc ∧ _t s' = metadata_t doc
      ∧ _decay s' = metadata_decay doc
      ∧ _Q s' = value <$> data doc
      ∧ _N s' = count <$> data doc.

(** The two tables have the same keys. *)
Definition tables_agree (s : UCB) : Prop := dom (_Q s) = dom (_N s).

(** The score the inner loop of [select] gives a token, read off the
    object the loop starts from. *)
Definition elem_score (s : UCB) (k : string) : npfloat :=
  match _Q s !! k, _N s !! k with
  | Some v, Some n =>
      if bool_decide (n = 0)%Z then PInf
      else np_add (Fin v) (uncertainty_at s n)
  | _, _ => PInf
  end.

(** [extends s s']: [s'] is [s] with entries of value 0 and count 0 added
    for some tokens that had none. *)
Record extends (s s' : UCB) : Prop := mkExtends {
  ext_agree : tables_agree s';
  ext_rest : same_rest s s';
  ext_score : ∀ k, elem_score s' k = elem_score s k;
  ext_keep : ∀ k n, _N s !! k = Some n → _N s' !! k = Some n;
  ext_new : ∀ k n, _N s' !! k = Some n →
            _N s !! k = Some n ∨ (_N s !! k = None ∧ n = 0%Z);
}.

(** An action with its mean score, as the outer loop records it. *)
Definition scored (s : UCB) (action : string) : string * npfloat :=
  (action, np_mean (elem_score s <$> split action)).

(** ** Scores as the specification describes them *)

(** A score is a real or plus infinity. *)
Definition is_score (x : npfloat) : Prop :=
  match x with
  | Fin _ | PInf => True
  | NInf | NaN => False
  end.

Definition score_lt (x y : npfloat) : Prop :=
  match x, y with
  | Fin a, Fin b => (a < b)%R
  | Fin _, PInf => True
  | _, _ => False
  end.

Definition score_le (x y : npfloat) : Prop :=
  match x, y with
  | Fin a, Fin b => (a <= b)%R
  | Fin _, PInf | PInf, PInf => True
  | _, _ => False
  end.

(** The score of a token in the specification's words: plus infinity while
    its count is 0 (an unseen token gets an entry of count 0), else
    [value + explorationConstant * sqrt (ln timestep / count)]. *)
Definition spec_token_score (s : UCB) (tok : string) : npfloat :=
  match _N s !! tok with
  | None => PInf
  | Some n =>
      if bool_decide (n = 0)%Z then PInf
      else Fin (default 0%R (_Q s !! tok)
                + _c s * sqrt (ln (IZR (_t s)) / IZR n))%R
  end.

Definition is_infinite (x : npfloat) : bool :=
  match x with
  | PInf => true
  | _ => false
  end.

Definition real_part (x : npfloat) : R :=
  match x with
  | Fin r => r
  | _ => 0%R
  end.

(** The aggregate score in the specification's words: the arithmetic mean
    of the token scores, infinite if any of them is. *)
Definition spec_aggregate_score (l : list npfloat) : npfloat :=
  if existsb is_infinite l then PInf
  else Fin (Rsum (real_part <$> l) / IZR (Z.of_nat (length l))).

(** The aggregate score of an action. *)
Definition spec_action_score (s : UCB) (action : string) : npfloat :=
  spec_aggregate_score (spec_token_score s <$> split action).

(** ** Well-formed objects *)

(** The object as construction and the updates keep it: the tables have the
    same keys, no count is negative and the timestep is at least 1. *)
Definition well_formed (s : UCB) : Prop :=
  tables_agree s
  ∧ (∀ k n, _N s !! k = Some n → (0 <= n)%Z)
  ∧ (1 <= _t s)%Z.

Definition keeps_well_formed (s s' : UCB) : Prop :=
  well_formed s → well_formed s'.

(** ** Histories *)

(** [grows s s']: both histories of [s'] extend those of [s], the reward
    history by no more entries than the state history. *)
Definition grows (s s' : UCB) : Prop :=
  ∃ hs hr,
    _state_history s' = _state_history s ++ hs
    ∧ _reward_history s' = _reward_history s ++ hr
    ∧ (length hr ≤ length hs)%nat.

(** Both histories are as they were. *)
Definition same_histories (s s' : UCB) : Prop :=
  _state_history s' = _state_history s
  ∧ _reward_history s' = _reward_history s.

(** The entries of [s] are still in [s'], and an entry of [s'] that [s]
    did not have holds 0. *)
Definition values_extend (s s' : UCB) : Prop :=
  (∀ k v, _Q s !! k = Some v → _Q s' !! k = Some v)
  ∧ (∀ k v, _Q s' !! k = Some v →
       _Q s !! k = Some v ∨ (_Q s !! k = None ∧ v = 0%R)).

Definition counts_extend (s s' : UCB) : Prop :=
  (∀ k n, _N s !! k = Some n → _N s' !! k = Some n)
  ∧ (∀ k n, _N s' !! k = Some n →
       _N s !! k = Some n ∨ (_N s !! k = None ∧ n = 0%Z)).

(** * Properties *)

(** ** [split] *)

Example split_words :
  split (" a" +:+ String (ascii_of_nat 9) ("bc  d" +:+ String (ascii_of_nat 10) ""))
  = ["a"; "bc"; "d"].
Proof. reflexivity. Qed.

Example split_blank : split "   " = [].
Proof. reflexivity. Qed.

(** ** The method monad *)

Lemma bind_Ok {A B} (m : M A) (k : A → M B) s a s' :
  m s = Ok a s' → bind m k s = k a s'.
Proof. unfold bind. by intros ->. Qed.

Lemma bind_Raise {A B} (m : M A) (k : A → M B) s e s' :
  m s = Raise e s' → bind m k s = Raise e s'.
Proof. unfold bind. by intros ->. Qed.

(** Unfold the monad and the field updates in the goal. *)
Ltac unfold_M :=
  cbv beta iota delta
    [bind ret raise gets modify getQ getN setQ setN
     with_Q with_N with_t with_c with_decay with_state_history
     with_reward_history with_last_thought] in *;
  cbn beta iota delta [_Q _N _t _c _decay _state_history _reward_history
                       _last_thought fst snd final] in *.

(** ** Tokens *)

Lemma occurrences_0 tok l : occurrences tok l = 0%nat ↔ tok ∉ l.
Proof.
  induction l as [|x l IH]; simpl.
  - split; [intros _; apply not_elem_of_nil | done].
  - rewrite not_elem_of_cons. case_decide; subst; split.
    + lia.
    + intros [? _]; done.
    + intros H0. split; [congruence | by apply IH].
    + intros [_ ?]. by apply IH.
Qed.

(** ** [update_utility] *)

Lemma same_rest_refl s : same_rest s s.
Proof. by repeat split. Qed.

Lemma same_rest_trans s1 s2 s3 :
  same_rest s1 s2 → same_rest s2 s3 → same_rest s1 s3.
Proof.
  unfold same_rest. intros (?&?&?&?&?&?) (?&?&?&?&?&?).
  repeat split; congruence.
Qed.

Lemma update_elem_Ok reward elem s q n :
  _Q s !! elem = Some q → _N s !! elem = Some n → (n + 1 ≠ 0)%Z →
  update_elem reward elem s = Ok tt (step_elem reward elem q n s).
Proof.
  intros HQ HN Hn. unfold update_elem, step_elem, py_div. unfold_M.
  rewrite HN. unfold_M. rewrite HQ. unfold_M. rewrite HQ. unfold_M.
  rewrite lookup_insert_eq. unfold_M. case_decide as H0; unfold_M.
  - apply eq_IZR_R0 in H0. done.
  - done.
Qed.

Lemma update_elem_KeyError reward elem s :
  _N s !! elem = None → update_elem reward elem s = Raise KeyError s.
Proof. intros HN. unfold update_elem. unfold_M. by rewrite HN. Qed.

(** What an iteration may do to the object, whether it returns or raises:
    the key sets of the tables and everything else stay as they are. *)
Lemma update_elem_dom reward elem s :
  dom (_Q (final (update_elem reward elem s))) = dom (_Q s)
  ∧ dom (_N (final (update_elem reward elem s))) = dom (_N s)
  ∧ same_rest s (final (update_elem reward elem s)).
Proof.
  unfold update_elem, py_div, same_rest. unfold_M.
  destruct (_N s !! elem) as [n|] eqn:HN; unfold_M; [|done].
  assert (dom (<[elem:=(n + 1)%Z]> (_N s)) = dom (_N s)) as HdN
    by (by apply dom_insert_lookup_L).
  destruct (_Q s !! elem) as [q|] eqn:HQ; unfold_M; [|done].
  rewrite HQ. unfold_M. rewrite lookup_insert_eq. unfold_M.
  case_decide; unfold_M; [done|].
  split_and!; try done. by apply dom_insert_lookup_L.
Qed.

Lemma step_elem_tracked reward elem q n s k :
  (0 <= n)%Z → tracked s k → tracked (step_elem reward elem q n s) k.
Proof.
  intros Hn [HQ (m & HN & Hm)]. unfold tracked, step_elem. unfold_M.
  destruct (decide (elem = k)) as [->|Hne].
  - rewrite !lookup_insert_eq. split; [done|]. exists (n + 1)%Z. split; [done|lia].
  - rewrite !lookup_insert_ne by done. eauto.
Qed.

(** The whole loop on tracked tokens: it returns, and a token that occurs
    once has been updated once. *)
Lemma update_loop_Ok reward toks : ∀ s,
  (∀ k, k ∈ toks → tracked s k) →
  ∃ s', forM_ (update_elem reward) toks s = Ok tt s'
    ∧ same_rest s s'
    ∧ (∀ k, tracked s k → tracked s' k)
    ∧ (∀ k, k ∉ toks → _Q s' !! k = _Q s !! k ∧ _N s' !! k = _N s !! k)
    ∧ (∀ k q n, occurrences k toks = 1%nat →
         _Q s !! k = Some q → _N s !! k = Some n →
         _N s' !! k = Some (n + 1)%Z
         ∧ _Q s' !! k = Some (q + (reward - q) / IZR (n + 1))%R).
Proof.
  induction toks as [|x toks IH]; intros s Htr.
  - exists s. simpl. split_and!; auto using same_rest_refl. intros; simpl in *; lia.
  - destruct (Htr x) as [[q HQ] (n & HN & Hn)]; [by left|].
    pose proof (update_elem_Ok reward x s q n HQ HN ltac:(lia)) as Hx.
    set (s1 := step_elem reward x q n s) in *.
    destruct (IH s1) as (s' & Hrun & Hrest & Htr' & Hout & Honce).
    { intros k Hk. apply step_elem_tracked; [done|]. apply Htr. by right. }
    exists s'. simpl. split_and!.
    + by rewrite (bind_Ok _ _ _ _ _ Hx).
    + eapply same_rest_trans; [|exact Hrest]. by repeat split.
    + intros k Hk. apply Htr'. by apply step_elem_tracked.
    + intros k [Hkx Hk]%not_elem_of_cons.
      destruct (Hout k Hk) as [-> ->]. subst s1. unfold step_elem. unfold_M.
      by rewrite !lookup_insert_ne.
    + intros k q0 n0 Hocc HQ0 HN0. simpl in Hocc. case_decide as Hxk.
      * subst x. assert (k ∉ toks) as Hk by (apply occurrences_0; lia).
        destruct (Hout k Hk) as [-> ->]. subst s1. unfold step_elem. unfold_M.
        rewrite !lookup_insert_eq. split; congruence.
      * apply Honce; [lia|..]; subst s1; unfold step_elem; unfold_M;
          by rewrite lookup_insert_ne.
Qed.

(** Whatever the loop does, it neither adds nor removes a table key and
    touches nothing but the tables. *)
Lemma update_loop_dom reward toks : ∀ s,
  dom (_Q (final (forM_ (update_elem reward) toks s))) = dom (_Q s)
  ∧ dom (_N (final (forM_ (update_elem reward) toks s))) = dom (_N s)
  ∧ same_rest s (final (forM_ (update_elem reward) toks s)).
Proof.
  induction toks as [|x toks IH]; intros s; simpl.
  - split_and!; auto using same_rest_refl.
  - pose proof (update_elem_dom reward x s) as (HQ & HN & Hr).
    unfold bind. destruct (update_elem reward x s) as [[] s1|e s1]; simpl in *.
    + destruct (IH s1) as (HQ1 & HN1 & Hr1).
      split_and!; [congruence..|by eapply same_rest_trans].
    + done.
Qed.

(** [update_utility] in terms of its loop. *)
Lemma update_utility_unfold action reward s :
  update_utility action reward s =
    match forM_ (update_elem reward) (split action) s with
    | Ok _ s1 =>
        Ok tt (with_c (py_max (_c s1 - _decay s1) 0) (with_t (_t s1 + 1)%Z s1))
    | Raise e s1 => Raise e s1
    end.
Proof.
  unfold update_utility. unfold_M.
  by destruct (forM_ (update_elem reward) (split action) s).
Qed.

Lemma update_utility_Ok action reward s :
  (∀ k, k ∈ split action → tracked s k) →
  ∃ s', update_utility action reward s = Ok tt s'
    ∧ _t s' = (_t s + 1)%Z
    ∧ _c s' = py_max (_c s - _decay s) 0
    ∧ _decay s' = _decay s
    ∧ _state_history s' = _state_history s
    ∧ _reward_history s' = _reward_history s
    ∧ _last_thought s' = _last_thought s
    ∧ (∀ k, tracked s k → tracked s' k)
    ∧ (∀ k, k ∉ split action →
         _Q s' !! k = _Q s !! k ∧ _N s' !! k = _N s !! k)
    ∧ (∀ k q n, occurrences k (split action) = 1%nat →
         _Q s !! k = Some q → _N s !! k = Some n →
         _N s' !! k = Some (n + 1)%Z
         ∧ _Q s' !! k = Some (q + (reward - q) / IZR (n + 1))%R).
Proof.
  intros Htr.
  destruct (update_loop_Ok reward (split action) s Htr)
    as (s1 & Hrun & (Ht & Hc & Hd & Hsh & Hrh & Hlt) & Htr' & Hout & Honce).
  eexists. rewrite update_utility_unfold, Hrun. split; [done|].
  unfold_M. rewrite Ht, Hc, Hd. split_and!; try done.
Qed.

(** ** Incremental mean *)

(** The running-average invariant: the value times the count is the sum of
    the rewards seen. *)
Lemma update_calls_total tok calls : ∀ s q n,
  _Q s !! tok = Some q → _N s !! tok = Some n → (0 <= n)%Z →
  (∀ ar, ar ∈ calls →
     occurrences tok (split (fst ar)) = 1%nat
     ∧ ∀ k, k ∈ split (fst ar) → tracked s k) →
  ∃ s' q',
    update_calls calls s = Ok tt s'
    ∧ _N s' !! tok = Some (n + Z.of_nat (length calls))%Z
    ∧ _Q s' !! tok = Some q'
    ∧ (q' * IZR (n + Z.of_nat (length calls)) = q * IZR n + Rsum calls.*2)%R.
Proof.
  induction calls as [|[a r] calls IH]; intros s q n HQ HN Hn Hcalls.
  - exists s, q. simpl. rewrite Z.add_0_r. split_and!; [done..|lra].
  - destruct (Hcalls (a, r)) as [Honce Htr]; [by left|]. simpl in Honce, Htr.
    destruct (update_utility_Ok a r s Htr)
      as (s1 & Hrun & _ & _ & _ & _ & _ & _ & Htr1 & _ & Hupd).
    destruct (Hupd tok q n Honce HQ HN) as [HN1 HQ1].
    destruct (IH s1 _ _ HQ1 HN1 ltac:(lia)) as (s' & q' & Hrun' & HN' & HQ' & Hsum).
    { intros ar Har. destruct (Hcalls ar) as [? Htr']; [by right|].
      split; [done|]. intros k Hk. apply Htr1, Htr', Hk. }
    exists s', q'. unfold update_calls in *. cbn [forM_ length].
    rewrite (bind_Ok _ _ _ _ _ Hrun).
    replace (n + Z.of_nat (S (length calls)))%Z
      with (n + 1 + Z.of_nat (length calls))%Z by lia.
    split_and!; [done..|]. rewrite Hsum.
    assert (Rsum ((a, r) :: calls).*2 = r + Rsum calls.*2)%R as -> by done.
    assert (IZR (n + 1) ≠ 0)%R as Hnz by (apply not_0_IZR; lia).
    rewrite plus_IZR in *. field_simplify_eq; [lra|done].
Qed.


Ltac solve_tracked :=
  split; [by eexists | eexists; split; [reflexivity | lia]].


(** ** What a method leaves alone *)

Section preservation.
Variable Rel : UCB → UCB → Prop.
Hypothesis Rel_refl : ∀ s, Rel s s.
Hypothesis Rel_trans : ∀ s1 s2 s3, Rel s1 s2 → Rel s2 s3 → Rel s1 s3.

Lemma preserves_ret {A} (a : A) : preserves Rel (ret a).
Proof. intros s. apply Rel_refl. Qed.

Lemma preserves_raise {A} e : preserves Rel (raise (A:=A) e).
Proof. intros s. apply Rel_refl. Qed.

Lemma preserves_gets {A} (f : UCB → A) : preserves Rel (gets f).
Proof. intros s. apply Rel_refl. Qed.

Lemma preserves_getQ k : preserves Rel (getQ k).
Proof. intros s. unfold getQ. destruct (_Q s !! k); apply Rel_refl. Qed.

Lemma preserves_getN k : preserves Rel (getN k).
Proof. intros s. unfold getN. destruct (_N s !! k); apply Rel_refl. Qed.

Lemma preserves_py_div x y : preserves Rel (py_div x y).
Proof. intros s. unfold py_div. case_decide; apply Rel_refl. Qed.

Lemma preserves_modify f : (∀ s, Rel s (f s)) → preserves Rel (modify f).
Proof. intros Hf s. apply Hf. Qed.

Lemma preserves_bind {A B} (m : M A) (k : A → M B) :
  preserves Rel m → (∀ a, preserves Rel (k a)) → preserves Rel (bind m k).
Proof.
  intros Hm Hk s. unfold bind. specialize (Hm s).
  destruct (m s) as [a s1|e s1]; simpl in *; [|done].
  eapply Rel_trans; [exact Hm|apply Hk].
Qed.

Lemma preserves_mapM {A B} (f : A → M B) l :
  (∀ x, preserves Rel (f x)) → preserves Rel (mapM f l).
Proof.
  intros Hf. induction l as [|x l IH]; simpl; [apply preserves_ret|].
  apply preserves_bind; [apply Hf|intros y].
  apply preserves_bind; [apply IH|intros ys]. apply preserves_ret.
Qed.

Lemma preserves_forM_ {A} (f : A → M unit) l :
  (∀ x, preserves Rel (f x)) → preserves Rel (forM_ f l).
Proof.
  intros Hf. induction l as [|x l IH]; simpl; [apply preserves_ret|].
  apply preserves_bind; [apply Hf|intros _; apply IH].
Qed.

Lemma preserves_foldM {A B} (f : B → A → M B) l : ∀ b,
  (∀ b x, preserves Rel (f b x)) → preserves Rel (foldM f b l).
Proof.
  induction l as [|x l IH]; intros b Hf; simpl; [apply preserves_ret|].
  apply preserves_bind; [apply Hf|intros b'; by apply IH].
Qed.
End preservation.

(** Break a method body into its steps. *)
Ltac preserves_steps Hrefl Htrans :=
  repeat first
    [ apply (preserves_bind _ Htrans); [|intros ?]
    | apply (preserves_ret _ Hrefl)
    | apply (preserves_raise _ Hrefl)
    | apply (preserves_gets _ Hrefl)
    | apply (preserves_getQ _ Hrefl)
    | apply (preserves_getN _ Hrefl)
    | apply (preserves_py_div _ Hrefl)
    | apply (preserves_mapM _ Hrefl Htrans); intros ?
    | apply (preserves_forM_ _ Hrefl Htrans); intros ?
    | apply (preserves_foldM _ Hrefl Htrans); intros ? ?
    | case_bool_decide
    | case_decide ].

Lemma same_hyper_refl s : same_hyper s s.
Proof. done. Qed.

Lemma same_hyper_trans s1 s2 s3 :
  same_hyper s1 s2 → same_hyper s2 s3 → same_hyper s1 s3.
Proof. unfold same_hyper. intros (?&?&?) (?&?&?). split_and!; congruence. Qed.

Ltac hyper_steps :=
  preserves_steps same_hyper_refl same_hyper_trans;
  try (apply (preserves_modify same_hyper); intros ?; done).

Lemma select_hyper actions : preserves same_hyper (select actions).
Proof.
  unfold select, _preprocess, _postprocess, py_max_key. hyper_steps.
  destruct a0; hyper_steps.
Qed.

Lemma save_hyper fs name : preserves same_hyper (save fs name).
Proof.
  unfold save. hyper_steps.
Qed.

(** ** [reward_thought] *)

Lemma index_from_end_1 h x s : index_from_end (h ++ [x]) 1 s = Ok x s.
Proof.
  unfold index_from_end. rewrite length_app. simpl.
  rewrite decide_True by lia.
  replace (length h + 1 - 1)%nat with (length h + 0)%nat by lia.
  by rewrite lookup_app_r, Nat.add_0_r, Nat.sub_diag by lia.
Qed.

Lemma index_from_end_2 h x old s :
  last h = Some old → index_from_end (h ++ [x]) 2 s = Ok old s.
Proof.
  intros Hlast. unfold index_from_end. rewrite length_app. simpl.
  assert (0 < length h)%nat as Hlen by (destruct h; simpl; [done|lia]).
  rewrite decide_True by lia.
  rewrite lookup_app_l by lia. rewrite last_lookup in Hlast.
  replace (length h + 1 - 2)%nat with (Nat.pred (length h)) by lia.
  by rewrite Hlast.
Qed.

(** [reward_thought] case by case: [old] is the second-to-last entry of the
    state history once the new state has been appended. *)
Lemma reward_thought_unfold brain_state s :
  reward_thought brain_state s =
    let s1 := with_state_history (_state_history s ++ [brain_state]) s in
    match _last_thought s, last (_state_history s) with
    | Some action, Some old =>
        if truthy (Some action) then
          if decide (old = 0)%R then Raise ZeroDivisionError s1
          else
            match update_utility action (brain_state / old) s1 with
            | Ok _ s2 =>
                Ok tt (with_reward_history
                         (_reward_history s2 ++ [(brain_state / old)%R]) s2)
            | Raise e s2 => Raise e s2
            end
        else Ok tt s1
    | _, _ => Ok tt s1
    end.
Proof.
  unfold reward_thought. unfold_M.
  destruct (_last_thought s) as [action|]; [|done].
  destruct (truthy (Some action)) eqn:Htruthy; simpl.
  - destruct (last (_state_history s)) as [old|] eqn:Hlast.
    + destruct (bool_decide _) eqn:Hlen.
      2:{ apply bool_decide_eq_false in Hlen.
          rewrite length_app in Hlen. simpl in Hlen.
          destruct (_state_history s); simpl in *; [done|lia]. }
      rewrite index_from_end_1.
      erewrite index_from_end_2 by done.
      unfold py_div. destruct (decide (old = 0)%R); unfold_M; [done|].
      by destruct (update_utility _ _ _).
    + apply last_None in Hlast. by rewrite Hlast.
  - by destruct (last (_state_history s)).
Qed.

(** ** The exploration schedule *)

Lemma py_max_Rmax x y : py_max x y = Rmax x y.
Proof.
  unfold py_max, Rmax. case_decide; destruct (Rle_dec x y); lra.
Qed.

Section schedule.
Variables c0 d : R.
Hypothesis d_nonneg : (0 <= d)%R.

Lemma keeps_schedule_refl s : keeps_schedule c0 d s s.
Proof. by intros ?. Qed.

Lemma keeps_schedule_trans s1 s2 s3 :
  keeps_schedule c0 d s1 s2 → keeps_schedule c0 d s2 s3 →
  keeps_schedule c0 d s1 s3.
Proof. unfold keeps_schedule. auto. Qed.

Lemma same_hyper_keeps_schedule s s' :
  same_hyper s s' → keeps_schedule c0 d s s'.
Proof.
  unfold same_hyper, keeps_schedule, on_schedule.
  intros (-> & -> & ->). done.
Qed.

(** One decay step moves the schedule one timestep on. *)
Lemma schedule_step t :
  (1 <= t)%Z →
  py_max (Rmax (c0 - d * IZR (t - 1)) 0 - d) 0
  = Rmax (c0 - d * IZR (t + 1 - 1)) 0.
Proof.
  intros Ht. rewrite py_max_Rmax.
  replace (t + 1 - 1)%Z with (t - 1 + 1)%Z by lia. rewrite plus_IZR.
  unfold Rmax. repeat destruct (Rle_dec _ _); lra.
Qed.

Lemma update_utility_Ok_schedule action reward s s' :
  on_schedule c0 d s → update_utility action reward s = Ok tt s' →
  _t s' = (_t s + 1)%Z ∧ (_c s' <= _c s)%R ∧ (0 <= _c s')%R
  ∧ on_schedule c0 d s'.
Proof.
  intros (Hd & Ht & Hc). rewrite update_utility_unfold.
  pose proof (update_loop_dom reward (split action) s) as (_ & _ & Hrest).
  destruct (forM_ _ _ s) as [[] s1|]; [|done].
  destruct Hrest as (Ht1 & Hc1 & Hd1 & _). simpl in *.
  intros [= <-]. unfold on_schedule. unfold_M.
  rewrite Ht1, Hc1, Hd1, Hd, Hc, schedule_step by done.
  split_and!; try done; try lia.
  - replace (_t s + 1 - 1)%Z with (_t s - 1 + 1)%Z by lia.
    rewrite plus_IZR. unfold Rmax. repeat destruct (Rle_dec _ _); lra.
  - apply Rmax_r.
Qed.

Lemma update_utility_schedule action reward :
  preserves (keeps_schedule c0 d) (update_utility action reward).
Proof.
  intros s Hs.
  destruct (update_utility action reward s) as [[] s'|e s'] eqn:Hrun.
  - by apply (update_utility_Ok_schedule action reward s s').
  - rewrite update_utility_unfold in Hrun.
    pose proof (update_loop_dom reward (split action) s) as (_ & _ & Hrest).
    destruct (forM_ _ _ s) as [|e1 s1]; [done|].
    injection Hrun as -> ->. simpl in *.
    apply (same_hyper_keeps_schedule s); [|done].
    destruct Hrest as (? & ? & ? & _). done.
Qed.

Lemma reward_thought_schedule brain_state :
  preserves (keeps_schedule c0 d) (reward_thought brain_state).
Proof.
  intros s. rewrite reward_thought_unfold. cbv zeta.
  set (s1 := with_state_history _ s).
  assert (keeps_schedule c0 d s s1) as Hs1 by (by intros ?).
  destruct (_last_thought s) as [a|]; [|done].
  destruct (last (_state_history s)) as [old|]; [|done].
  destruct (truthy (Some a)); [|done].
  case_decide; [done|].
  pose proof (update_utility_schedule a (brain_state / old) s1) as Hu.
  destruct (update_utility _ _ s1) as [[] s2|e s2]; simpl in *.
  - intros Hs. by apply Hu, Hs1.
  - intros Hs. by apply Hu, Hs1.
Qed.

Lemma after_calls_schedule calls : ∀ s,
  on_schedule c0 d s → on_schedule c0 d (after_calls calls s).
Proof.
  induction calls as [|c calls IH]; intros s Hs; [done|].
  apply IH. destruct c; simpl.
  - exact (same_hyper_keeps_schedule s _ (select_hyper actions s) Hs).
  - exact (update_utility_schedule action reward s Hs).
  - exact (reward_thought_schedule brain_state s Hs).
  - exact (same_hyper_keeps_schedule s _ (save_hyper fs filename s) Hs).
Qed.
End schedule.

Lemma __init___None fs brain_state c tmax :
  tmax ≠ 0%R →
  __init__ fs brain_state None c tmax blank
  = Ok tt (mkUCB ∅ ∅ 1 c (c / tmax) [brain_state] [0%R] None).
Proof.
  intros Htmax. unfold __init__, load, py_div. unfold_M.
  by rewrite decide_False.
Qed.



(** ** Rewards *)

Lemma truthy_Some a : a ≠ EmptyString → truthy (Some a) = true.
Proof. by destruct a. Qed.

(** C8.  While no last action is recorded, [reward_thought] returns, appends
    exactly the new state to the state history, and leaves the two tables,
    the timestep, the exploration constant and the reward history as they
    were. *)
Theorem reward_thought_before_selection brain_state s :
  _last_thought s = None →
  ∃ s',
    reward_thought brain_state s = Ok tt s'
    ∧ _state_history s' = _state_history s ++ [brain_state]
    ∧ length (_state_history s') = S (length (_state_history s))
    ∧ _Q s' = _Q s ∧ _N s' = _N s
    ∧ _t s' = _t s ∧ _c s' = _c s
    ∧ _reward_history s' = _reward_history s.
Proof.
  intros Hlast. eexists. rewrite reward_thought_unfold, Hlast.
  split; [done|]. unfold_M. split_and!; try done.
  rewrite length_app. simpl. lia.
Qed.

Lemma reward_thought_before_selection_witness :
  ∃ s',
    reward_thought 120 (mkUCB ∅ ∅ 1 2 0 [100%R] [0%R] None) = Ok tt s'
    ∧ _state_history s' = [100; 120]%R
    ∧ length (_state_history s') = 2%nat
    ∧ _Q s' = ∅ ∧ _N s' = ∅
    ∧ _t s' = 1%Z ∧ _c s' = 2%R
    ∧ _reward_history s' = [0%R].
Proof.
  apply (reward_thought_before_selection 120
           (mkUCB ∅ ∅ 1 2 0 [100%R] [0%R] None)).
  reflexivity.
Defined.

(** C9.  With a last action recorded and 0 as the latest entry of the state
    history (the second-to-last once the new state is appended),
    [reward_thought] raises [ZeroDivisionError]; the new state has been
    appended and nothing else has changed. *)
Theorem reward_thought_zero_division brain_state action s :
  _last_thought s = Some action →
  action ≠ EmptyString →
  last (_state_history s) = Some 0%R →
  reward_thought brain_state s
  = Raise ZeroDivisionError
      (with_state_history (_state_history s ++ [brain_state]) s).
Proof.
  intros Hlast Hne Hold.
  rewrite reward_thought_unfold, Hlast, Hold, truthy_Some by done.
  by rewrite decide_True.
Qed.

Lemma reward_thought_zero_division_witness :
  reward_thought 120
    (mkUCB {["a" := 0%R]} {["a" := 0%Z]} 1 2 0 [0%R] [0%R] (Some "a"))
  = Raise ZeroDivisionError
      (mkUCB {["a" := 0%R]} {["a" := 0%Z]} 1 2 0 [0; 120]%R [0%R] (Some "a")).
Proof.
  exact (reward_thought_zero_division 120 "a"
           (mkUCB {["a" := 0%R]} {["a" := 0%Z]} 1 2 0 [0%R] [0%R] (Some "a"))
           eq_refl ltac:(discriminate) eq_refl).
Defined.

(** C2.  With a last action recorded and [old], not 0, the latest entry of
    the state history: [reward_thought] appends the new state, calls
    [update_utility] on the last action with the reward [new / old] and
    then appends that reward to the reward history.  When the tokens of the
    action are in the tables the call returns, with both histories one
    entry longer and each token that occurs once updated once.  From the
    history [[100]] and the new state 120 the reward is 1.2. *)
Theorem reward_thought_ratio brain_state action old s :
  _last_thought s = Some action →
  action ≠ EmptyString →
  last (_state_history s) = Some old →
  old ≠ 0%R →
  let s1 := with_state_history (_state_history s ++ [brain_state]) s in
  let reward := (brain_state / old)%R in
  reward_thought brain_state s
  = match update_utility action reward s1 with
    | Ok _ s2 =>
        Ok tt (with_reward_history (_reward_history s2 ++ [reward]) s2)
    | Raise e s2 => Raise e s2
    end
  ∧ (Forall (tracked s) (split action) →
     ∃ s',
       reward_thought brain_state s = Ok tt s'
       ∧ _state_history s' = _state_history s ++ [brain_state]
       ∧ _reward_history s' = _reward_history s ++ [reward]
       ∧ _t s' = (_t s + 1)%Z
       ∧ ∀ k q n, occurrences k (split action) = 1%nat →
           _Q s !! k = Some q → _N s !! k = Some n →
           _N s' !! k = Some (n + 1)%Z
           ∧ _Q s' !! k = Some (q + (reward - q) / IZR (n + 1))%R)
  ∧ (_state_history s = [100%R] → brain_state = 120%R →
     reward = (12 / 10)%R).
Proof.
  intros Hlast Hne Hold Hnz s1 reward.
  assert (reward_thought brain_state s
          = match update_utility action reward s1 with
            | Ok _ s2 =>
                Ok tt (with_reward_history (_reward_history s2 ++ [reward]) s2)
            | Raise e s2 => Raise e s2
            end) as Hrun.
  { rewrite reward_thought_unfold, Hlast, Hold, truthy_Some by done.
    by rewrite decide_False. }
  split_and!; [done| |].
  - intros Htr. rewrite Forall_forall in Htr.
    destruct (update_utility_Ok action reward s1 Htr)
      as (s2 & Hupd & Ht & _ & _ & Hsh & Hrh & _ & _ & _ & Honce).
    eexists. rewrite Hrun, Hupd. split; [done|]. unfold_M.
    rewrite Hsh, Hrh, Ht. split_and!; try done.
  - intros Hh -> . rewrite Hh in Hold. injection Hold as <-.
    unfold reward. lra.
Qed.

Lemma reward_thought_ratio_witness :
  ∃ s',
    reward_thought 120
      (mkUCB {["a" := 0%R]} {["a" := 0%Z]} 1 2 0 [100%R] [0%R] (Some "a"))
    = Ok tt s'
    ∧ _state_history s' = [100; 120]%R
    ∧ _reward_history s' = [0; 120 / 100]%R
    ∧ (120 / 100 = 12 / 10)%R.
Proof.
  pose (s := mkUCB {["a" := 0%R]} {["a" := 0%Z]} 1 2 0 [100%R] [0%R]
                   (Some "a")).
  assert (100 ≠ 0)%R as Hnz by lra.
  destruct (reward_thought_ratio 120 "a" 100 s eq_refl ltac:(discriminate)
              eq_refl Hnz) as (_ & Hok & Hval).
  destruct Hok as (s' & Hrun & Hsh & Hrh & _).
  { change (split "a") with ["a"]. constructor; [solve_tracked|constructor]. }
  exists s'. split_and!; [exact Hrun|exact Hsh|exact Hrh|by apply Hval].
Defined.

(** ** Key lookups of [update_utility] *)

Lemma step_elem_counts_tracked reward elem q n s :
  (0 <= n)%Z → counts_tracked s →
  counts_tracked (step_elem reward elem q n s).
Proof.
  intros Hn Hs k m. unfold step_elem. unfold_M.
  destruct (decide (elem = k)) as [->|Hne].
  - rewrite !lookup_insert_eq. intros [= <-]. split; [lia|done].
  - rewrite !lookup_insert_ne by done. apply Hs.
Qed.

(** The loop stops with [KeyError] at the first token without a count. *)
Lemma update_loop_KeyError reward toks : ∀ s tok,
  counts_tracked s → tok ∈ toks → _N s !! tok = None →
  ∃ s', forM_ (update_elem reward) toks s = Raise KeyError s'.
Proof.
  induction toks as [|x toks IH]; intros s tok Hs Hin Hnone.
  - by apply elem_of_nil in Hin.
  - simpl. destruct (_N s !! x) as [n|] eqn:HN.
    + destruct (Hs x n HN) as [Hn [q HQ]].
      rewrite (bind_Ok _ _ _ _ _
                 (update_elem_Ok reward x s q n HQ HN ltac:(lia))).
      apply elem_of_cons in Hin as [->|Hin]; [congruence|].
      apply (IH _ tok); [by apply step_elem_counts_tracked|done|].
      unfold step_elem. unfold_M. rewrite lookup_insert_ne; [done|congruence].
    + exists s. by rewrite (bind_Raise _ _ _ _ _ (update_elem_KeyError _ _ _ HN)).
Qed.

(** With every token in both tables, the loop returns or stops on a
    division by zero; no lookup fails. *)
Lemma update_loop_lookups_total reward toks : ∀ s,
  Forall (λ k, is_Some (_Q s !! k) ∧ is_Some (_N s !! k)) toks →
  (∃ s', forM_ (update_elem reward) toks s = Ok tt s')
  ∨ (∃ s', forM_ (update_elem reward) toks s = Raise ZeroDivisionError s').
Proof.
  induction toks as [|x toks IH]; intros s Hall; [left; by exists s|].
  apply Forall_cons in Hall as [[[q HQ] [n HN]] Hall]. simpl.
  destruct (decide (n + 1 = 0)%Z) as [Hz|Hnz].
  - right. eexists. unfold bind, update_elem, py_div. unfold_M.
    rewrite HN. unfold_M. rewrite HQ. unfold_M. rewrite HQ. unfold_M.
    rewrite lookup_insert_eq. unfold_M. rewrite Hz.
    by rewrite decide_True.
  - rewrite (bind_Ok _ _ _ _ _ (update_elem_Ok reward x s q n HQ HN Hnz)).
    apply IH. eapply Forall_impl; [exact Hall|].
    intros k [HkQ HkN]. unfold step_elem. unfold_M.
    rewrite !lookup_insert_is_Some. split; destruct (decide (x = k)); auto.
Qed.

(** C10.  [update_utility] never adds a key to a table, whether it returns
    or raises.  On an object whose counts are all of tracked tokens, an
    action with a token that has no table entry makes it raise [KeyError].
    When every token of the action has an entry in both tables, no lookup
    fails: the call returns, or raises [ZeroDivisionError]; and it returns
    when moreover no count is negative. *)
Theorem update_utility_lookups action reward s :
  (dom (_Q (final (update_utility action reward s))) = dom (_Q s)
   ∧ dom (_N (final (update_utility action reward s))) = dom (_N s))
  ∧ (counts_tracked s →
     (∃ tok, tok ∈ split action ∧ _N s !! tok = None) →
     ∃ s', update_utility action reward s = Raise KeyError s')
  ∧ (Forall (λ k, is_Some (_Q s !! k) ∧ is_Some (_N s !! k)) (split action) →
     (∀ s', update_utility action reward s ≠ Raise KeyError s')
     ∧ (Forall (tracked s) (split action) →
        ∃ s', update_utility action reward s = Ok tt s')).
Proof.
  split; [|split].
  - rewrite update_utility_unfold.
    pose proof (update_loop_dom reward (split action) s) as (HQ & HN & _).
    by destruct (forM_ _ _ s).
  - intros Hs (tok & Hin & Hnone).
    destruct (update_loop_KeyError reward _ s tok Hs Hin Hnone) as [s' Hrun].
    exists s'. by rewrite update_utility_unfold, Hrun.
  - intros Hall. split.
    + intros s'. rewrite update_utility_unfold.
      by destruct (update_loop_lookups_total reward _ s Hall)
        as [[s1 ->]|[s1 ->]].
    + intros Htr. rewrite Forall_forall in Htr.
      destruct (update_utility_Ok action reward s Htr) as (s' & Hrun & _).
      by exists s'.
Qed.

Lemma update_utility_lookups_witness :
  (∃ s', update_utility "a b" 1 (mkUCB {["a" := 0%R]} {["a" := 0%Z]}
                                       1 2 0 [1%R] [0%R] None)
         = Raise KeyError s')
  ∧ (∃ s', update_utility "a" 1 (mkUCB {["a" := 0%R]} {["a" := 0%Z]}
                                       1 2 0 [1%R] [0%R] None)
           = Ok tt s').
Proof.
  pose (s := mkUCB {["a" := 0%R]} {["a" := 0%Z]} 1 2 0 [1%R] [0%R] None).
  split.
  - apply (proj1 (proj2 (update_utility_lookups "a b" 1 s))).
    + intros k n. unfold s. cbn [_Q _N].
      intros [<- <-]%lookup_singleton_Some. split; [lia|].
      rewrite lookup_singleton_eq. by eexists.
    + exists "b". split; [|reflexivity].
      change (split "a b") with ["a"; "b"]. apply elem_of_cons. right.
      apply elem_of_cons. by left.
  - apply (proj2 (proj2 (update_utility_lookups "a" 1 s))).
    + change (split "a") with ["a"]. constructor; [|constructor].
      split; by eexists.
    + change (split "a") with ["a"]. constructor; [solve_tracked|constructor].
Defined.

(** ** Persistence *)

(** The loop of [load] over the entries of a document: each entry
    overwrites the token's value and count, the other tokens stay. *)
Lemma load_entries_Ok l : ∀ s,
  NoDup l.*1 →
  forM_ load_entry l s
  = Ok tt (with_N (λ n, (count <$> (list_to_map l : gmap string entry)) ∪ n)
             (with_Q (λ q, (value <$> (list_to_map l : gmap string entry)) ∪ q)
                s)).
Proof.
  induction l as [|[k e] l IH]; intros s Hnd.
  - simpl. unfold_M. rewrite !fmap_empty, !(left_id_L ∅ (∪)). by destruct s.
  - apply NoDup_cons in Hnd as [Hk Hnd]. cbn [forM_].
    unfold load_entry at 1. unfold_M. rewrite IH by done. unfold_M.
    assert ((list_to_map l : gmap string entry) !! k = None) as Hnone
      by (by apply not_elem_of_list_to_map_1).
    cbn [list_to_map foldr uncurry]. rewrite !fmap_insert.
    rewrite <- !insert_union_l, <- !insert_union_r; [done|..];
      by rewrite lookup_fmap, Hnone.
Qed.

(** [load] of a file that exists. *)
Lemma load_Some fs name doc s :
  fs !! name = Some doc →
  load fs (Some name) s
  = Ok tt (mkUCB ((value <$> data doc) ∪ _Q s) ((count <$> data doc) ∪ _N s)
             (metadata_t doc) (metadata_c doc) (metadata_decay doc)
             (_state_history s) (_reward_history s) (_last_thought s)).
Proof.
  intros Hdoc. unfold load. rewrite Hdoc. unfold_M.
  rewrite load_entries_Ok by apply NoDup_fst_map_to_list. unfold_M.
  by rewrite list_to_map_to_list.
Qed.

(** [load] without a file name, or of a file that does not exist. *)
Lemma load_None fs filename s :
  (∀ name, filename = Some name → fs !! name = None) →
  load fs filename s = Ok tt s.
Proof.
  intros Hnone. unfold load. destruct filename as [name|]; [|done].
  by rewrite (Hnone name).
Qed.

Lemma _uncertainty_Ok k n s :
  _N s !! k = Some n → _uncertainty k s = Ok (uncertainty_at s n) s.
Proof. intros HN. unfold _uncertainty. unfold_M. by rewrite HN. Qed.

Lemma save_entry_Ok d k s :
  is_Some (_Q s !! k) → is_Some (_N s !! k) →
  save_entry d k s
  = Ok (match saved_entry s k with
        | Some e => <[k := e]> d
        | None => d
        end) s.
Proof.
  intros [q HQ] [n HN]. unfold save_entry, saved_entry. unfold_M.
  rewrite HN, HQ. unfold_M. destruct (bool_decide (0 < n)%Z); unfold_M; [|done].
  rewrite HQ. unfold_M. rewrite HN. unfold_M.
  by rewrite (_uncertainty_Ok k n s HN).
Qed.

Lemma save_loop_Ok keys s : ∀ d0,
  Forall (λ k, is_Some (_Q s !! k) ∧ is_Some (_N s !! k)) keys →
  ∃ d, foldM save_entry d0 keys s = Ok d s
    ∧ ∀ k, d !! k = if decide (k ∈ keys)
                    then match saved_entry s k with
                         | Some e => Some e
                         | None => d0 !! k
                         end
                    else d0 !! k.
Proof.
  induction keys as [|x keys IH]; intros d0 Hall.
  - exists d0. split; [done|]. intros k.
    by rewrite decide_False by apply not_elem_of_nil.
  - apply Forall_cons in Hall as [[HQ HN] Hall]. cbn [foldM].
    rewrite (bind_Ok _ _ _ _ _ (save_entry_Ok d0 x s HQ HN)).
    destruct (IH (match saved_entry s x with
                  | Some e => <[x := e]> d0
                  | None => d0
                  end) Hall) as (d & Hrun & Hd).
    exists d. split; [done|]. intros k. rewrite Hd.
    destruct (decide (k ∈ keys)) as [Hin|Hnin].
    + rewrite decide_True by (apply elem_of_cons; by right).
      destruct (saved_entry s k) as [e|] eqn:Hk; [done|].
      destruct (decide (x = k)) as [->|Hne]; [by rewrite Hk|].
      destruct (saved_entry s x); [by rewrite lookup_insert_ne|done].
    + destruct (decide (x = k)) as [->|Hne].
      * rewrite decide_True by (apply elem_of_cons; by left).
        destruct (saved_entry s k); [by rewrite lookup_insert_eq|done].
      * rewrite decide_False by (rewrite elem_of_cons; intros [?|?]; done).
        destruct (saved_entry s x); [by rewrite lookup_insert_ne|done].
Qed.

(** [save] of an object whose value keys all have a count: it returns,
    leaves the object as it is, and writes the hyperparameters and the
    entries of the tokens with a positive count. *)
Lemma save_Ok fs name s :
  dom (_Q s) ⊆ dom (_N s) →
  ∃ d,
    save fs name s = Ok (<[name := mkSaved (_c s) (_t s) (_decay s) d]> fs) s
    ∧ ∀ k, d !! k = saved_entry s k.
Proof.
  intros Hdom. unfold save. unfold_M.
  destruct (save_loop_Ok (map_to_list (_Q s)).*1 s ∅) as (d & Hrun & Hd).
  { apply Forall_forall. intros k Hk.
    apply list_elem_of_fmap in Hk as ([k' q] & -> & Hk).
    apply elem_of_map_to_list in Hk. simpl.
    split; [by eexists|]. apply elem_of_dom, Hdom, elem_of_dom. by eexists. }
  exists d. rewrite Hrun. split; [done|]. intros k. rewrite Hd.
  case_decide as Hin; [by destruct (saved_entry s k)|].
  rewrite lookup_empty. unfold saved_entry.
  destruct (_Q s !! k) as [q|] eqn:HQ; [|done].
  exfalso. apply Hin. apply list_elem_of_fmap. exists (k, q).
  split; [done|]. by apply elem_of_map_to_list.
Qed.

Lemma load_with_uncertainties fs name g doc s :
  load (<[name := with_uncertainties g doc]> fs) (Some name) s
  = load (<[name := doc]> fs) (Some name) s.
Proof.
  rewrite !(load_Some _ name _ s (lookup_insert_eq _ _ _)).
  unfold with_uncertainties. cbn [data metadata_c metadata_t metadata_decay].
  by rewrite <- !map_fmap_compose.
Qed.

(** C6.  [save] on an object whose two tables have the same keys, then
    [load] of the written file on a freshly constructed object: both
    return; the loaded object has the saved exploration constant, timestep
    and decay rate and, for every token saved with a positive count, the
    same value and count; tokens whose count is not positive are not
    loaded; and the result does not depend on the stored [uncertainty]
    fields. *)
Theorem save_load_roundtrip fs name s fs0 brain_state c' tmax' :
  dom (_Q s) = dom (_N s) →
  tmax' ≠ 0%R →
  ∃ fs' doc fresh s',
    save fs name s = Ok fs' s
    ∧ fs' !! name = Some doc
    ∧ __init__ fs0 brain_state None c' tmax' blank = Ok tt fresh
    ∧ load fs' (Some name) fresh = Ok tt s'
    ∧ _c s' = _c s ∧ _t s' = _t s ∧ _decay s' = _decay s
    ∧ (∀ k n, _N s !! k = Some n → (0 < n)%Z →
         _N s' !! k = Some n ∧ _Q s' !! k = _Q s !! k)
    ∧ (∀ k n, _N s !! k = Some n → (n <= 0)%Z →
         _N s' !! k = None ∧ _Q s' !! k = None)
    ∧ (∀ g, load (<[name := with_uncertainties g doc]> fs') (Some name) fresh
            = Ok tt s').
Proof.
  intros Hdom Htmax.
  destruct (save_Ok fs name s) as (d & Hsave & Hd); [by rewrite Hdom|].
  set (doc := mkSaved (_c s) (_t s) (_decay s) d) in *.
  assert (<[name:=doc]> fs !! name = Some doc) as Hdoc
    by apply lookup_insert_eq.
  eexists _, doc, _, _. split_and!.
  - exact Hsave.
  - exact Hdoc.
  - by apply __init___None.
  - by apply load_Some.
  - done.
  - done.
  - done.
  - intros k n HN Hn. cbn [_Q _N data doc].
    assert (is_Some (_Q s !! k)) as [q HQ].
    { apply elem_of_dom. rewrite Hdom. apply elem_of_dom. by eexists. }
    rewrite !(right_id_L ∅ (∪)), !lookup_fmap, Hd. unfold saved_entry.
    rewrite HQ, HN, bool_decide_eq_true_2 by done. done.
  - intros k n HN Hn. cbn [_Q _N data doc].
    rewrite !(right_id_L ∅ (∪)), !lookup_fmap, Hd. unfold saved_entry.
    rewrite HN. destruct (_Q s !! k); [|done].
    by rewrite bool_decide_eq_false_2 by lia.
  - intros g. rewrite insert_insert_eq, load_with_uncertainties.
    by apply load_Some.
Qed.

Lemma save_load_roundtrip_witness :
  ∃ fs' doc fresh s',
    save ∅ "ucb.json"
      (mkUCB {["a" := 3%R]} {["a" := 2%Z]} 5 2 0 [1%R] [0%R] None)
    = Ok fs' (mkUCB {["a" := 3%R]} {["a" := 2%Z]} 5 2 0 [1%R] [0%R] None)
    ∧ fs' !! "ucb.json" = Some doc
    ∧ __init__ ∅ 7 None 1 10 blank = Ok tt fresh
    ∧ load fs' (Some "ucb.json") fresh = Ok tt s'
    ∧ _c s' = 2%R ∧ _t s' = 5%Z ∧ _decay s' = 0%R
    ∧ _N s' !! "a" = Some 2%Z ∧ _Q s' !! "a" = Some 3%R.
Proof.
  pose (s := mkUCB {["a" := 3%R]} {["a" := 2%Z]} 5 2 0 [1%R] [0%R] None).
  assert (10 ≠ 0)%R as Htmax by lra.
  destruct (save_load_roundtrip ∅ "ucb.json" s ∅ 7 1 10)
    as (fs' & doc & fresh & s' & Hsave & Hdoc & Hinit & Hload
        & Hc & Ht & Hdecay & Hpos & _).
  { unfold s. cbn [_Q _N]. by rewrite !dom_singleton_L. }
  { exact Htmax. }
  destruct (Hpos "a" 2%Z) as [HN HQ]; [reflexivity|lia|].
  exists fs', doc, fresh, s'.
  split_and!; [exact Hsave|exact Hdoc|exact Hinit|exact Hload
              |exact Hc|exact Ht|exact Hdecay|exact HN|exact HQ].
Defined.




(** ** Scoring *)

Lemma tables_agree_None s k :
  tables_agree s → _Q s !! k = None → _N s !! k = None.
Proof.
  intros Hs HQ. apply not_elem_of_dom. rewrite <- Hs. by apply not_elem_of_dom.
Qed.

Lemma tables_agree_Some s k v :
  tables_agree s → _Q s !! k = Some v → is_Some (_N s !! k).
Proof.
  intros Hs HQ. apply elem_of_dom. rewrite <- Hs. apply elem_of_dom. by eexists.
Qed.

Lemma extends_refl s : tables_agree s → extends s s.
Proof. intros Hs. split; auto using same_rest_refl. Qed.

Lemma extends_trans s1 s2 s3 : extends s1 s2 → extends s2 s3 → extends s1 s3.
Proof.
  intros [_ Hr1 Hs1 Hk1 Hn1] [Ha2 Hr2 Hs2 Hk2 Hn2]. split.
  - done.
  - by eapply same_rest_trans.
  - intros k. by rewrite Hs2, Hs1.
  - auto.
  - intros k n HN. destruct (Hn2 k n HN) as [H2|[H2 ->]]; [auto|].
    right. split; [|done]. destruct (_N s1 !! k) as [m|] eqn:H1; [|done].
    apply Hk1 in H1. congruence.
Qed.

(** The score of one token: the loop body returns it, after giving an
    unseen token an entry. *)
Lemma score_elem_Ok k s :
  tables_agree s →
  ∃ s', score_elem k s = Ok (elem_score s k) s'
    ∧ extends s s' ∧ is_Some (_N s' !! k).
Proof.
  intros Hs. unfold score_elem, elem_score. unfold_M.
  destruct (_Q s !! k) as [v|] eqn:HQ.
  - rewrite bool_decide_eq_false_2 by done. unfold_M.
    destruct (tables_agree_Some s k v Hs HQ) as [n HN]. rewrite HN. unfold_M.
    destruct (bool_decide (n = 0)%Z); unfold_M.
    + exists s. split_and!; [done|by apply extends_refl|by eexists].
    + rewrite HQ. unfold_M. rewrite (_uncertainty_Ok k n s HN).
      exists s. split_and!; [done|by apply extends_refl|by eexists].
  - rewrite bool_decide_eq_true_2 by done. unfold_M.
    rewrite lookup_insert_eq. unfold_M.
    rewrite bool_decide_eq_true_2 by done. unfold_M.
    pose proof (tables_agree_None s k Hs HQ) as HN.
    eexists. split_and!; [done| |cbn [_N]; by rewrite lookup_insert_eq].
    split.
    + unfold tables_agree in *. cbn [_Q _N]. by rewrite !dom_insert_L, Hs.
    + done.
    + intros k'. unfold elem_score, uncertainty_at. cbn [_Q _N _c _t].
      destruct (decide (k = k')) as [<-|Hne].
      * by rewrite !lookup_insert_eq, HQ.
      * by rewrite !lookup_insert_ne.
    + intros k' n HN'. cbn [_N]. rewrite lookup_insert_ne; [done|congruence].
    + intros k' n. cbn [_N]. destruct (decide (k = k')) as [<-|Hne].
      * rewrite lookup_insert_eq. intros [= <-]. by right.
      * rewrite lookup_insert_ne by done. by left.
Qed.

Lemma score_elems_Ok toks : ∀ s,
  tables_agree s →
  ∃ s', mapM score_elem toks s = Ok (elem_score s <$> toks) s'
    ∧ extends s s' ∧ Forall (λ k, is_Some (_N s' !! k)) toks.
Proof.
  induction toks as [|k toks IH]; intros s Hs.
  - exists s. split_and!; [done|by apply extends_refl|constructor].
  - destruct (score_elem_Ok k s Hs) as (s1 & Hk & Hext1 & [n Hn]).
    destruct (IH s1 (ext_agree _ _ Hext1)) as (s' & Hrun & Hext & Hall).
    exists s'. cbn [mapM]. rewrite (bind_Ok _ _ _ _ _ Hk).
    rewrite (bind_Ok _ _ _ _ _ Hrun). unfold_M. split_and!.
    + rewrite fmap_cons. do 2 f_equal. apply list_fmap_ext.
      intros _ k' _. apply (ext_score _ _ Hext1).
    + by eapply extends_trans.
    + constructor; [|done]. exists n. by apply (ext_keep _ _ Hext).
Qed.

Lemma score_actions_Ok actions : ∀ s,
  tables_agree s →
  ∃ s', mapM score_action actions s = Ok (scored s <$> actions) s'
    ∧ extends s s'
    ∧ Forall (λ a, Forall (λ k, is_Some (_N s' !! k)) (split a)) actions.
Proof.
  induction actions as [|a actions IH]; intros s Hs.
  - exists s. split_and!; [done|by apply extends_refl|constructor].
  - destruct (score_elems_Ok (split a) s Hs) as (s1 & Ha & Hext1 & Hall1).
    destruct (IH s1 (ext_agree _ _ Hext1)) as (s' & Hrun & Hext & Hall).
    exists s'. cbn [mapM]. unfold score_action at 1.
    unfold bind at 1. unfold bind at 1. rewrite Ha. unfold_M.
    rewrite Hrun. split_and!.
    + rewrite fmap_cons. do 2 f_equal. apply list_fmap_ext.
      intros _ b _. unfold scored. do 2 f_equal. apply list_fmap_ext.
      intros _ k _. apply (ext_score _ _ Hext1).
    + by eapply extends_trans.
    + constructor; [|done]. eapply Forall_impl; [exact Hall1|].
      intros k [n Hn]. exists n. by apply (ext_keep _ _ Hext).
Qed.

(** [select] on a non-empty list: the first maximal scored action. *)
Lemma select_Ok a actions s :
  tables_agree s →
  ∃ s1,
    select (a :: actions) s
    = Ok (fst (max_from (scored s a) (scored s <$> actions)))
         (with_last_thought
            (Some (fst (max_from (scored s a) (scored s <$> actions)))) s1)
    ∧ extends s s1
    ∧ Forall (λ a, Forall (λ k, is_Some (_N s1 !! k)) (split a))
             (a :: actions).
Proof.
  intros Hs.
  destruct (score_actions_Ok (a :: actions) s Hs) as (s1 & Hrun & Hext & Hall).
  exists s1. split_and!; [|done..].
  unfold select, _preprocess, _postprocess, py_max_key.
  unfold bind at 1. unfold ret at 1.
  unfold bind at 1. rewrite Hrun. rewrite fmap_cons. by unfold_M.
Qed.

(** ** Scores as the specification describes them *)

Lemma np_gtb_true_lt x y :
  is_score x → is_score y → np_gtb y x = true → score_lt x y.
Proof.
  destruct x, y; simpl; try done. intros _ _ H.
  by apply bool_decide_eq_true in H.
Qed.

Lemma np_gtb_false_le x y :
  is_score x → is_score y → np_gtb x y = false → score_le x y.
Proof.
  destruct x, y; simpl; try done. intros _ _ H.
  apply bool_decide_eq_false in H. lra.
Qed.

Lemma score_lt_trans x y z : score_lt x y → score_lt y z → score_lt x z.
Proof. destruct x, y, z; simpl; try done; lra. Qed.

Lemma score_le_lt_trans x y z : score_le x y → score_lt y z → score_lt x z.
Proof. destruct x, y, z; simpl; try done; lra. Qed.

(** [max] returns the first maximal item: the items before it are strictly
    smaller and the items after it are not greater. *)
Lemma max_from_first rest : ∀ l1 best l2,
  is_score (snd best) →
  Forall (λ y : string * npfloat, is_score (snd y)) rest →
  Forall (λ y : string * npfloat, score_lt (snd y) (snd best)) l1 →
  Forall (λ y : string * npfloat, score_le (snd y) (snd best)) l2 →
  ∃ l1' l2',
    l1 ++ best :: l2 ++ rest = l1' ++ max_from best rest :: l2'
    ∧ Forall (λ y : string * npfloat,
                score_lt (snd y) (snd (max_from best rest))) l1'
    ∧ Forall (λ y : string * npfloat,
                score_le (snd y) (snd (max_from best rest))) l2'.
Proof.
  induction rest as [|x rest IH]; intros l1 best l2 Hbest Hrest Hl1 Hl2.
  - exists l1, l2. by rewrite app_nil_r.
  - apply Forall_cons in Hrest as [Hx Hrest]. cbn [max_from].
    destruct (np_gtb (snd x) (snd best)) eqn:Hgt.
    + pose proof (np_gtb_true_lt _ _ Hbest Hx Hgt) as Hlt.
      destruct (IH (l1 ++ best :: l2) x [] Hx Hrest) as (l1' & l2' & Heq & ?).
      { apply Forall_app. split; [|constructor].
        - eapply Forall_impl; [exact Hl1|]. intros y Hy.
          exact (score_lt_trans _ _ _ Hy Hlt).
        - exact Hlt.
        - eapply Forall_impl; [exact Hl2|]. intros y Hy.
          exact (score_le_lt_trans _ _ _ Hy Hlt). }
      { constructor. }
      exists l1', l2'. split; [|done]. rewrite <- Heq.
      by rewrite <- !app_assoc.
    + pose proof (np_gtb_false_le _ _ Hx Hbest Hgt) as Hle.
      destruct (IH l1 best (l2 ++ [x]) Hbest Hrest Hl1) as (l1' & l2' & Heq & ?).
      { apply Forall_app. split; [done|]. by constructor. }
      exists l1', l2'. split; [|done]. rewrite <- Heq.
      by rewrite <- !app_assoc.
Qed.

(** ** The code's scores are the specification's *)

Lemma ln_IZR_nonneg t : (1 <= t)%Z → (0 <= ln (IZR t))%R.
Proof.
  intros Ht. apply IZR_le in Ht.
  destruct (Rle_lt_or_eq_dec _ _ Ht) as [Hlt|<-].
  - left. rewrite <- ln_1. apply ln_increasing; lra.
  - rewrite ln_1. lra.
Qed.

Lemma uncertainty_at_real s n :
  (1 <= _t s)%Z → (0 < n)%Z →
  uncertainty_at s n = Fin (_c s * sqrt (ln (IZR (_t s)) / IZR n)).
Proof.
  intros Ht Hn. unfold uncertainty_at, np_log, np_div_int, np_sqrt.
  rewrite decide_True by lia. rewrite decide_False by lia.
  rewrite decide_False; [done|].
  apply Rle_not_lt. apply Rmult_le_pos; [by apply ln_IZR_nonneg|].
  left. apply Rinv_0_lt_compat. by apply (IZR_lt 0).
Qed.

Lemma elem_score_token_score s k :
  well_formed s → elem_score s k = spec_token_score s k.
Proof.
  intros (Hagree & Hcounts & Ht). unfold elem_score, spec_token_score.
  destruct (_Q s !! k) as [v|] eqn:HQ.
  - destruct (tables_agree_Some s k v Hagree HQ) as [n HN]. rewrite HN.
    case_bool_decide as Hn; [done|].
    rewrite uncertainty_at_real; [done|done|].
    specialize (Hcounts k n HN). lia.
  - by rewrite (tables_agree_None s k Hagree HQ).
Qed.

Lemma spec_token_score_is_score s k : is_score (spec_token_score s k).
Proof.
  unfold spec_token_score. destruct (_N s !! k); [|done]. by case_bool_decide.
Qed.

Lemma np_sum_from acc l :
  is_score acc → Forall is_score l →
  foldl np_add acc l
  = if is_infinite acc || existsb is_infinite l then PInf
    else Fin (real_part acc + Rsum (real_part <$> l)).
Proof.
  revert acc. induction l as [|x l IH]; intros acc Hacc Hl.
  - destruct acc; simpl in *; try done. f_equal. lra.
  - apply Forall_cons in Hl as [Hx Hl]. cbn [foldl].
    rewrite IH; [|by destruct acc, x|done].
    destruct acc, x; simpl in *; try done.
    destruct (existsb is_infinite l); [done|]. f_equal. apply Rplus_assoc.
Qed.

(** [np.mean] of a non-empty list of scores is their aggregate score. *)
Lemma np_mean_aggregate_score l :
  l ≠ [] → Forall is_score l → np_mean l = spec_aggregate_score l.
Proof.
  intros Hne Hl. unfold np_mean, np_sum, spec_aggregate_score.
  rewrite np_sum_from by done. simpl.
  destruct (existsb is_infinite l); simpl.
  - by rewrite decide_True by lia.
  - rewrite decide_False by (destruct l; simpl; [done|lia]).
    f_equal. lra.
Qed.

Lemma scored_action_score s a :
  well_formed s → split a ≠ [] → scored s a = (a, spec_action_score s a).
Proof.
  intros Hs Hne. unfold scored, spec_action_score. f_equal.
  rewrite (list_fmap_ext (elem_score s) (spec_token_score s) (split a))
    by (intros; by apply elem_score_token_score).
  apply np_mean_aggregate_score.
  - by destruct (split a).
  - apply Forall_fmap, Forall_forall. intros k _. apply spec_token_score_is_score.
Qed.

Lemma spec_action_score_is_score s a : is_score (spec_action_score s a).
Proof.
  unfold spec_action_score, spec_aggregate_score. by destruct (existsb _ _).
Qed.

(** [select] on a well-formed object, with the object it leaves. *)
Lemma select_characterised actions s :
  well_formed s →
  actions ≠ [] →
  Forall (λ a, split a ≠ []) actions →
  ∃ a s1 before after,
    select actions s = Ok a (with_last_thought (Some a) s1)
    ∧ extends s s1
    ∧ Forall (λ a, Forall (λ k, is_Some (_N s1 !! k)) (split a)) actions
    ∧ actions = before ++ a :: after
    ∧ Forall (λ b, score_lt (spec_action_score s b) (spec_action_score s a)) before
    ∧ Forall (λ b, score_le (spec_action_score s b) (spec_action_score s a)) after.
Proof.
  intros Hs Hne Hall. destruct actions as [|a0 actions]; [done|].
  destruct (select_Ok a0 actions s (proj1 Hs)) as (s1 & Hrun & Hext & Hin).
  set (f := λ a, (a, spec_action_score s a)).
  apply Forall_cons in Hall as [Ha0 Hall].
  assert (scored s a0 = f a0) as Hs0 by (by apply scored_action_score).
  assert (scored s <$> actions = f <$> actions) as Hsrest.
  { apply Forall_fmap_ext_1. eapply Forall_impl; [exact Hall|].
    intros a Ha. by apply scored_action_score. }
  rewrite Hs0, Hsrest in Hrun.
  destruct (max_from_first (f <$> actions) [] (f a0) [])
    as (l1 & l2 & Heq & Hl1 & Hl2).
  { apply spec_action_score_is_score. }
  { apply Forall_fmap, Forall_forall. intros a _. apply spec_action_score_is_score. }
  { constructor. }
  { constructor. }
  set (r := max_from (f a0) (f <$> actions)) in *.
  simpl in Heq. rewrite <- (fmap_cons f) in Heq.
  apply fmap_app_inv in Heq as (before & rest & -> & Hrest & Hact).
  symmetry in Hrest. apply fmap_cons_inv in Hrest as (a & after & Hr & -> & ->).
  exists a, s1, before, after.
  rewrite Hr in Hrun, Hl1, Hl2. cbn [f fst snd] in Hrun, Hl1, Hl2.
  rewrite <- Hact. split_and!; [done|done|done|done| |].
  - by apply Forall_fmap in Hl1.
  - by apply Forall_fmap in Hl2.
Qed.



(** ** Exploration *)

Lemma max_from_keep best rest :
  Forall (λ y : string * npfloat, np_gtb (snd y) (snd best) = false) rest →
  max_from best rest = best.
Proof.
  induction rest as [|x rest IH]; [done|].
  intros [Hx Hrest]%Forall_cons. cbn [max_from]. rewrite Hx. by apply IH.
Qed.

Lemma spec_aggregate_score_infinite l :
  spec_aggregate_score l = PInf ↔ ∃ x, x ∈ l ∧ x = PInf.
Proof.
  unfold spec_aggregate_score. destruct (existsb is_infinite l) eqn:Hex.
  - split; [intros _|done]. apply existsb_exists in Hex as (x & Hin & Hx).
    exists x. split; [by apply list_elem_of_In|by destruct x].
  - split; [done|]. intros (x & Hin & ->).
    assert (existsb is_infinite l = true) as Htrue; [|congruence].
    apply existsb_exists. exists PInf. split; [by apply list_elem_of_In|done].
Qed.

(** On empty tables every action with a token scores plus infinity. *)
Lemma scored_fresh s a :
  _Q s = ∅ → split a ≠ [] → scored s a = (a, PInf).
Proof.
  intros HQ Hne. unfold scored. f_equal.
  assert (∀ k, elem_score s k = PInf) as Hinf.
  { intros k. unfold elem_score. by rewrite HQ, lookup_empty. }
  rewrite np_mean_aggregate_score.
  - apply spec_aggregate_score_infinite. destruct (split a) as [|k toks]; [done|].
    exists PInf. split; [|done]. rewrite fmap_cons, Hinf. by left.
  - by destruct (split a).
  - apply Forall_fmap, Forall_forall. intros k _. simpl. by rewrite Hinf.
Qed.

(** C4.  On an object with empty tables and a non-empty list of actions,
    each with at least one token (so that each contains an unseen token),
    [select] returns an action of the list that contains a token whose
    count is 0 after the call: it is the first action of the list, and all
    its tokens have count 0. *)
Theorem select_explores actions s :
  _Q s = ∅ → _N s = ∅ →
  actions ≠ [] →
  Forall (λ a, split a ≠ []) actions →
  ∃ a s',
    select actions s = Ok a s'
    ∧ a ∈ actions
    ∧ (∃ tok, tok ∈ split a ∧ _N s' !! tok = Some 0%Z)
    ∧ head actions = Some a
    ∧ Forall (λ tok, _N s' !! tok = Some 0%Z) (split a).
Proof.
  intros HQ HN Hne Hall. destruct actions as [|a0 actions]; [done|].
  apply Forall_cons in Hall as [Ha0 Hall].
  destruct (select_Ok a0 actions s) as (s1 & Hrun & Hext & Hin).
  { unfold tables_agree. by rewrite HQ, HN. }
  rewrite (scored_fresh s a0 HQ Ha0) in Hrun.
  rewrite max_from_keep in Hrun.
  2:{ apply Forall_fmap. eapply Forall_impl; [exact Hall|].
      intros b Hb. unfold compose. by rewrite (scored_fresh s b HQ Hb). }
  cbn [fst] in Hrun. apply Forall_cons in Hin as [Hin _].
  assert (Forall (λ tok, _N s1 !! tok = Some 0%Z) (split a0)) as Hzero.
  { eapply Forall_impl; [exact Hin|]. intros tok [n Hn]. simpl in *.
    destruct (ext_new _ _ Hext tok n Hn) as [Hold|[_ ->]]; [|done].
    by rewrite HN, lookup_empty in Hold. }
  exists a0, (with_last_thought (Some a0) s1).
  split_and!; [done|by left| |done|done].
  destruct (split a0) as [|tok toks]; [done|].
  apply Forall_cons in Hzero as [Htok _]. exists tok. split; [by left|done].
Qed.

Lemma select_explores_witness :
  ∃ a s',
    select ["x y"; "z"] (mkUCB ∅ ∅ 1 2 0 [1%R] [0%R] None) = Ok a s'
    ∧ a ∈ ["x y"; "z"]
    ∧ (∃ tok, tok ∈ split a ∧ _N s' !! tok = Some 0%Z)
    ∧ head ["x y"; "z"] = Some a
    ∧ Forall (λ tok, _N s' !! tok = Some 0%Z) (split a).
Proof.
  apply (select_explores ["x y"; "z"] (mkUCB ∅ ∅ 1 2 0 [1%R] [0%R] None)).
  - reflexivity.
  - reflexivity.
  - discriminate.
  - repeat (constructor; [by vm_compute|]). constructor.
Defined.


(** The precondition that every action has a token is needed: an action
    without tokens has the mean of no scores, [nan], as its score, and
    [max] keeps it when it comes first, nothing being greater than [nan]. *)
Example select_empty_action :
  ∃ s', select [""; "a"] (mkUCB ∅ ∅ 1 2 0 [1%R] [0%R] None) = Ok "" s'.
Proof.
  pose (s := mkUCB ∅ ∅ 1 2 0 [1%R] [0%R] None).
  destruct (select_Ok "" ["a"] s) as (s1 & Hrun & _); [done|].
  assert (scored s "" = ("", NaN)) as Hempty.
  { unfold scored. change (split "") with (@nil string).
    unfold np_mean, np_sum, np_div_int, inf_signed. cbn [fmap list_fmap foldl length].
    rewrite decide_True by done.
    rewrite decide_False by lra. by rewrite decide_False by lra. }
  assert (scored s "a" = ("a", PInf)) as Ha by (by apply scored_fresh).
  rewrite fmap_cons, Hempty, Ha in Hrun. cbn [max_from snd np_gtb fst] in Hrun.
  eexists. exact Hrun.
Qed.

(** ** Well-formedness is an invariant *)

Lemma keeps_well_formed_refl s : keeps_well_formed s s.
Proof. by intros ?. Qed.

Lemma keeps_well_formed_trans s1 s2 s3 :
  keeps_well_formed s1 s2 → keeps_well_formed s2 s3 →
  keeps_well_formed s1 s3.
Proof. unfold keeps_well_formed. auto. Qed.

Lemma update_elem_well_formed reward elem :
  preserves keeps_well_formed (update_elem reward elem).
Proof.
  intros s (Hagree & Hcounts & Ht).
  destruct (_N s !! elem) as [n|] eqn:HN.
  - assert (is_Some (_Q s !! elem)) as [q HQ].
    { apply elem_of_dom. rewrite Hagree. apply elem_of_dom. by eexists. }
    pose proof (Hcounts elem n HN) as Hn.
    rewrite (update_elem_Ok reward elem s q n HQ HN) by lia.
    unfold step_elem, well_formed, tables_agree. unfold_M. split_and!.
    + by rewrite !dom_insert_lookup_L.
    + intros k m. destruct (decide (elem = k)) as [->|Hne].
      * rewrite lookup_insert_eq. intros [= <-]. lia.
      * rewrite lookup_insert_ne by done. apply Hcounts.
    + done.
  - by rewrite (update_elem_KeyError reward elem s HN).
Qed.

Lemma update_utility_well_formed action reward :
  preserves keeps_well_formed (update_utility action reward).
Proof.
  intros s Hs. rewrite update_utility_unfold.
  pose proof (preserves_forM_ keeps_well_formed keeps_well_formed_refl
                keeps_well_formed_trans (update_elem reward) (split action)
                (update_elem_well_formed reward) s Hs) as Hloop.
  destruct (forM_ _ _ s) as [[] s1|e s1]; [|done].
  destruct Hloop as (Hagree & Hcounts & Ht). simpl in *.
  unfold well_formed, tables_agree. unfold_M. split_and!; [done..|lia].
Qed.

Lemma reward_thought_well_formed brain_state :
  preserves keeps_well_formed (reward_thought brain_state).
Proof.
  intros s. rewrite reward_thought_unfold. cbv zeta.
  set (s1 := with_state_history _ s).
  assert (keeps_well_formed s s1) as Hs1 by (by intros ?).
  destruct (_last_thought s) as [a|]; [|done].
  destruct (last (_state_history s)) as [old|]; [|done].
  destruct (truthy (Some a)); [|done].
  case_decide; [done|].
  pose proof (update_utility_well_formed a (brain_state / old) s1) as Hu.
  destruct (update_utility _ _ s1) as [[] s2|e s2]; simpl in *.
  - intros Hs. by apply Hu, Hs1.
  - intros Hs. by apply Hu, Hs1.
Qed.

Lemma select_well_formed actions :
  preserves keeps_well_formed (select actions).
Proof.
  intros s Hs. destruct actions as [|a actions]; [done|].
  destruct (select_Ok a actions s (proj1 Hs)) as (s1 & -> & Hext & _).
  destruct Hs as (_ & Hcounts & Ht).
  destruct Hext as [Hagree (Ht1 & _) _ _ Hnew].
  unfold well_formed, tables_agree. unfold_M. split_and!; [done| |lia].
  intros k n Hn. destruct (Hnew k n Hn) as [Hold|[_ ->]]; [|done].
  by apply (Hcounts k n).
Qed.

Lemma save_unchanged fs filename : preserves eq (save fs filename).
Proof.
  unfold save.
  preserves_steps (@eq_refl UCB) (@eq_trans UCB).
Qed.

(** Every object built by [__init__] without a saved file and then used
    through [select], [update_utility], [reward_thought] and [save] is
    well formed. *)
Lemma after_calls_well_formed calls : ∀ s,
  well_formed s → well_formed (after_calls calls s).
Proof.
  induction calls as [|c calls IH]; intros s Hs; [done|].
  apply IH. destruct c; simpl.
  - exact (select_well_formed actions s Hs).
  - exact (update_utility_well_formed action reward s Hs).
  - exact (reward_thought_well_formed brain_state s Hs).
  - by rewrite <- (save_unchanged fs filename s).
Qed.

Lemma constructed_well_formed fs brain_state c tmax s0 calls :
  __init__ fs brain_state None c tmax blank = Ok tt s0 →
  well_formed (after_calls calls s0).
Proof.
  intros Hinit. apply after_calls_well_formed.
  unfold __init__, load, py_div in Hinit. unfold_M.
  case_decide; [done|]. injection Hinit as <-.
  unfold well_formed, tables_agree. cbn [_Q _N _t]. split_and!; [done| |lia].
  intros k n. by rewrite lookup_empty.
Qed.

(** * Further properties of the module *)

(** ** [update_utility]: repeated tokens and failures *)

(** The loop on tracked tokens, whatever the number of times a token
    occurs: the count grows by that number and the value stays the mean,
    the new value times the new count being the old value times the old
    count plus the reward once per occurrence. *)
Lemma update_loop_counts reward toks : ∀ s,
  (∀ k, k ∈ toks → tracked s k) →
  ∃ s', forM_ (update_elem reward) toks s = Ok tt s'
    ∧ ∀ k q n, _Q s !! k = Some q → _N s !! k = Some n → (0 <= n)%Z →
        ∃ q', _N s' !! k = Some (n + Z.of_nat (occurrences k toks))%Z
          ∧ _Q s' !! k = Some q'
          ∧ (q' * IZR (n + Z.of_nat (occurrences k toks))
             = q * IZR n + IZR (Z.of_nat (occurrences k toks)) * reward)%R.
Proof.
  induction toks as [|x toks IH]; intros s Htr.
  - exists s. split; [done|]. intros k q n HQ HN Hn. exists q.
    cbn [occurrences]. change (Z.of_nat 0) with 0%Z. rewrite !Z.add_0_r.
    split_and!; [done..|]. lra.
  - destruct (Htr x) as [[qx HQx] (nx & HNx & Hnx)]; [by left|].
    pose proof (update_elem_Ok reward x s qx nx HQx HNx ltac:(lia)) as Hx.
    set (s1 := step_elem reward x qx nx s) in *.
    destruct (IH s1) as (s' & Hrun & Hs').
    { intros k Hk. apply step_elem_tracked; [done|]. apply Htr. by right. }
    exists s'. cbn [forM_]. rewrite (bind_Ok _ _ _ _ _ Hx). split; [done|].
    intros k q n HQ HN Hn. cbn [occurrences].
    destruct (decide (x = k)) as [->|Hne].
    + assert (qx = q ∧ nx = n) as [-> ->] by (split; congruence).
      destruct (Hs' k (q + (reward - q) / IZR (n + 1))%R (n + 1)%Z)
        as (q' & HN' & HQ' & Hval).
      { subst s1. unfold step_elem. unfold_M. by rewrite lookup_insert_eq. }
      { subst s1. unfold step_elem. unfold_M. by rewrite lookup_insert_eq. }
      { lia. }
      exists q'.
      replace (n + Z.of_nat (1 + occurrences k toks))%Z
        with (n + 1 + Z.of_nat (occurrences k toks))%Z by lia.
      split_and!; [done..|]. rewrite Hval.
      replace (Z.of_nat (1 + occurrences k toks))
        with (1 + Z.of_nat (occurrences k toks))%Z by lia.
      assert (IZR (n + 1) ≠ 0)%R as Hnz by (apply not_0_IZR; lia).
      rewrite !plus_IZR in *. field_simplify_eq; [lra|done].
    + destruct (Hs' k q n) as (q' & HN' & HQ' & Hval); [..|done|].
      { subst s1. unfold step_elem. unfold_M. by rewrite lookup_insert_ne. }
      { subst s1. unfold step_elem. unfold_M. by rewrite lookup_insert_ne. }
      exists q'. by rewrite Nat.add_0_l.
Qed.



Lemma update_elem_raises reward elem s e s' :
  update_elem reward elem s = Raise e s' →
  e = KeyError ∨ e = ZeroDivisionError.
Proof.
  unfold update_elem, py_div. unfold_M.
  destruct (_N s !! elem) as [n|]; unfold_M; [|intros [= <- _]; by left].
  destruct (_Q s !! elem) as [q|] eqn:HQ; unfold_M;
    [|intros [= <- _]; by left].
  rewrite HQ. unfold_M. rewrite lookup_insert_eq. unfold_M.
  case_decide; unfold_M; [|done]. intros [= <- _]. by right.
Qed.

Lemma update_loop_raises reward toks : ∀ s e s',
  forM_ (update_elem reward) toks s = Raise e s' →
  e = KeyError ∨ e = ZeroDivisionError.
Proof.
  induction toks as [|x toks IH]; intros s e s'; [done|].
  cbn [forM_]. unfold bind.
  destruct (update_elem reward x s) as [[] s1|e1 s1] eqn:Hx.
  - apply IH.
  - intros [= <- _]. by eapply update_elem_raises.
Qed.

(** X2.  When [update_utility] raises, the exception is [KeyError] or
    [ZeroDivisionError], and the timestep, the exploration constant, the
    decay rate, both histories and the last action are as before the
    call, as are the key sets of the tables: the decay step has not
    run. *)
Theorem update_utility_failure action reward s e s' :
  update_utility action reward s = Raise e s' →
  (e = KeyError ∨ e = ZeroDivisionError)
  ∧ same_rest s s'
  ∧ dom (_Q s') = dom (_Q s) ∧ dom (_N s') = dom (_N s).
Proof.
  rewrite update_utility_unfold.
  pose proof (update_loop_dom reward (split action) s) as (HQ & HN & Hrest).
  destruct (forM_ _ _ s) as [[] s1|e1 s1] eqn:Hrun; [done|].
  intros [= <- <-]. split_and!; [|done..].
  by eapply update_loop_raises.
Qed.

Lemma update_utility_failure_witness :
  (KeyError = KeyError ∨ KeyError = ZeroDivisionError)
  ∧ same_rest (mkUCB ∅ ∅ 7 2 0 [1%R] [0%R] None)
              (mkUCB ∅ ∅ 7 2 0 [1%R] [0%R] None)
  ∧ dom (_Q (mkUCB ∅ ∅ 7 2 0 [1%R] [0%R] None)) = dom (∅ : gmap string R)
  ∧ dom (_N (mkUCB ∅ ∅ 7 2 0 [1%R] [0%R] None)) = dom (∅ : gmap string Z).
Proof.
  apply (update_utility_failure "a" 1 (mkUCB ∅ ∅ 7 2 0 [1%R] [0%R] None)).
  reflexivity.
Defined.

(** ** The histories *)

Lemma same_histories_refl s : same_histories s s.
Proof. done. Qed.

Lemma same_histories_trans s1 s2 s3 :
  same_histories s1 s2 → same_histories s2 s3 → same_histories s1 s3.
Proof. unfold same_histories. intros [? ?] [? ?]. split; congruence. Qed.

Lemma grows_refl s : grows s s.
Proof. exists [], []. by rewrite !app_nil_r. Qed.

Lemma grows_trans s1 s2 s3 : grows s1 s2 → grows s2 s3 → grows s1 s3.
Proof.
  intros (hs1 & hr1 & Hs1 & Hr1 & Hl1) (hs2 & hr2 & Hs2 & Hr2 & Hl2).
  exists (hs1 ++ hs2), (hr1 ++ hr2).
  rewrite Hs2, Hs1, Hr2, Hr1, <- !app_assoc, !length_app.
  split_and!; [done..|lia].
Qed.

Lemma same_histories_grows s s' : same_histories s s' → grows s s'.
Proof. intros [Hs Hr]. exists [], []. by rewrite !app_nil_r. Qed.

Lemma select_histories actions : preserves same_histories (select actions).
Proof.
  unfold select, _preprocess, _postprocess, py_max_key.
  preserves_steps same_histories_refl same_histories_trans;
    try (apply (preserves_modify same_histories); intros ?; done).
  destruct a0; preserves_steps same_histories_refl same_histories_trans.
Qed.

Lemma update_utility_histories action reward :
  preserves same_histories (update_utility action reward).
Proof.
  intros s. rewrite update_utility_unfold.
  pose proof (update_loop_dom reward (split action) s)
    as (_ & _ & _ & _ & _ & Hsh & Hrh & _).
  by destruct (forM_ _ _ s).
Qed.

(** The histories as [reward_thought] leaves them, returned or raised. *)
Lemma reward_thought_final_histories brain_state s :
  _state_history (final (reward_thought brain_state s))
  = _state_history s ++ [brain_state]
  ∧ (_reward_history (final (reward_thought brain_state s))
     = _reward_history s
     ∨ ∃ old s',
         last (_state_history s) = Some old
         ∧ reward_thought brain_state s = Ok tt s'
         ∧ _reward_history s' = _reward_history s ++ [(brain_state / old)%R]).
Proof.
  rewrite reward_thought_unfold. cbv zeta.
  set (s1 := with_state_history _ s).
  destruct (_last_thought s) as [a|]; [|by split; [|left]].
  destruct (last (_state_history s)) as [old|]; [|by split; [|left]].
  destruct (truthy (Some a)); [|by split; [|left]].
  case_decide; [by split; [|left]|].
  pose proof (update_utility_histories a (brain_state / old) s1) as [Hsh Hrh].
  destruct (update_utility _ _ s1) as [[] s2|e s2]; simpl in *.
  - split; [done|]. right. eexists old, _. split_and!; [done..|].
    unfold_M. by rewrite Hrh.
  - split; [done|]. by left.
Qed.

(** X3.  Whether it returns or raises, [reward_thought] leaves the state
    history longer by exactly the evaluated state; the reward history is
    either as before, or the call has returned and it is longer by
    exactly the ratio of the evaluated state to the previous latest
    one. *)
Theorem reward_thought_histories brain_state s :
  _state_history (final (reward_thought brain_state s))
  = _state_history s ++ [brain_state]
  ∧ (_reward_history (final (reward_thought brain_state s))
     = _reward_history s
     ∨ ∃ old s',
         last (_state_history s) = Some old
         ∧ reward_thought brain_state s = Ok tt s'
         ∧ _reward_history s' = _reward_history s ++ [(brain_state / old)%R]).
Proof. apply reward_thought_final_histories. Qed.

Lemma reward_thought_grows brain_state :
  preserves grows (reward_thought brain_state).
Proof.
  intros s.
  destruct (reward_thought_final_histories brain_state s)
    as [Hsh [Hrh|(old & s' & _ & Hrun & Hrh)]].
  - exists [brain_state], []. rewrite Hsh, Hrh, app_nil_r.
    split_and!; [done..|simpl; lia].
  - rewrite Hrun in *. simpl in *. by exists [brain_state], [(brain_state / old)%R].
Qed.

Lemma after_calls_grows calls : ∀ s, grows s (after_calls calls s).
Proof.
  induction calls as [|c calls IH]; intros s; [apply grows_refl|].
  eapply grows_trans; [|apply IH]. destruct c; simpl.
  - apply same_histories_grows, select_histories.
  - apply same_histories_grows, update_utility_histories.
  - apply reward_thought_grows.
  - rewrite <- (save_unchanged fs filename s). apply grows_refl.
Qed.

(** What [__init__] seeds, with or without a saved file. *)
Lemma __init___seeds fs brain_state savefile c tmax s0 :
  __init__ fs brain_state savefile c tmax blank = Ok tt s0 →
  _state_history s0 = [brain_state]
  ∧ _reward_history s0 = [0%R]
  ∧ _last_thought s0 = None.
Proof.
  unfold __init__, py_div. unfold_M. case_decide; [done|]. unfold_M.
  destruct savefile as [name|]; [|by intros [= <-]].
  destruct (fs !! name) as [doc|] eqn:Hdoc.
  - rewrite (load_Some fs name doc _ Hdoc). by intros [= <-].
  - unfold load. rewrite Hdoc. by intros [= <-].
Qed.

(** X4.  The histories are append-only and keep their seeds: on an object
    that [__init__] has built, with or without a saved file, and after any
    sequence of calls of [select], [update_utility], [reward_thought] and
    [save], the state history still starts with the state evaluated at
    construction, the reward history still starts with 0, and the reward
    history is no longer than the state history. *)
Theorem histories_keep_their_seeds fs brain_state savefile c tmax s0 calls :
  __init__ fs brain_state savefile c tmax blank = Ok tt s0 →
  ∃ hs hr,
    _state_history (after_calls calls s0) = brain_state :: hs
    ∧ _reward_history (after_calls calls s0) = 0%R :: hr
    ∧ (length hr ≤ length hs)%nat.
Proof.
  intros Hinit.
  destruct (__init___seeds _ _ _ _ _ _ Hinit) as (Hsh & Hrh & _).
  destruct (after_calls_grows calls s0) as (hs & hr & Hs & Hr & Hlen).
  exists hs, hr. by rewrite Hs, Hr, Hsh, Hrh.
Qed.

Lemma histories_keep_their_seeds_witness :
  ∃ hs hr,
    _state_history
      (after_calls [CallSelect ["a"]; CallReward 120; CallReward 90]
         (mkUCB ∅ ∅ 1 2 (2 / 10) [100%R] [0%R] None))
    = 100%R :: hs
    ∧ _reward_history
        (after_calls [CallSelect ["a"]; CallReward 120; CallReward 90]
           (mkUCB ∅ ∅ 1 2 (2 / 10) [100%R] [0%R] None))
      = 0%R :: hr
    ∧ (length hr ≤ length hs)%nat.
Proof.
  assert (10 ≠ 0)%R as Htmax by lra.
  exact (histories_keep_their_seeds ∅ 100 None 2 10 _
           [CallSelect ["a"]; CallReward 120; CallReward 90]
           (__init___None ∅ 100 2 10 Htmax)).
Defined.

(** ** [select]: edge cases, what it keeps, repeated calls *)

(** X5.  On an object whose tables have the same keys, [select] fails
    exactly on the empty list of candidates: it then raises [ValueError]
    and leaves the object as it was, no last action being recorded; on
    any other list it returns. *)
Theorem select_fails_on_empty_list actions s :
  tables_agree s →
  (actions = [] → select actions s = Raise ValueError s)
  ∧ (actions ≠ [] → ∃ a s', select actions s = Ok a s')
  ∧ (∀ e s', select actions s = Raise e s' →
       actions = [] ∧ e = ValueError ∧ s' = s).
Proof.
  intros Hs. destruct actions as [|a actions].
  - split_and!; [done|done|]. by intros e s' [= <- <-].
  - destruct (select_Ok a actions s Hs) as (s1 & Hrun & _).
    rewrite Hrun. split_and!; [done|by eexists _, _|done].
Qed.

Lemma select_fails_on_empty_list_witness :
  select [] (mkUCB {["a" := 5%R]} {["a" := 1%Z]} 3 2 0 [1%R] [0%R] (Some "a"))
  = Raise ValueError
      (mkUCB {["a" := 5%R]} {["a" := 1%Z]} 3 2 0 [1%R] [0%R] (Some "a")).
Proof.
  apply (select_fails_on_empty_list []
           (mkUCB {["a" := 5%R]} {["a" := 1%Z]} 3 2 0 [1%R] [0%R] (Some "a"))).
  - unfold tables_agree. cbn [_Q _N]. by rewrite !dom_singleton_L.
  - reflexivity.
Defined.

Lemma np_gtb_nan x : np_gtb x NaN = false.
Proof. by destruct x. Qed.

(** X6.  An action without tokens that comes first is the one [select]
    returns, whatever follows it: its score is the mean of no scores,
    [nan], and no score compares greater than [nan]. *)
Theorem select_tokenless_first a actions s :
  tables_agree s →
  split a = [] →
  ∃ s', select (a :: actions) s = Ok a s' ∧ _last_thought s' = Some a.
Proof.
  intros Hs Ha. destruct (select_Ok a actions s Hs) as (s1 & Hrun & _).
  assert (scored s a = (a, NaN)) as Hscore.
  { unfold scored. rewrite Ha.
    unfold np_mean, np_sum, np_div_int, inf_signed.
    cbn [fmap list_fmap foldl length].
    rewrite decide_True by done.
    rewrite decide_False by lra. by rewrite decide_False by lra. }
  rewrite Hscore, max_from_keep in Hrun.
  - eexists. split; [exact Hrun|done].
  - apply Forall_forall. intros y _. apply np_gtb_nan.
Qed.

Lemma select_tokenless_first_witness :
  ∃ s',
    select ["  "; "a"; "b c"]
      (mkUCB {["a" := 5%R]} {["a" := 1%Z]} 3 2 0 [1%R] [0%R] None)
    = Ok "  " s'
    ∧ _last_thought s' = Some "  ".
Proof.
  apply (select_tokenless_first "  " ["a"; "b c"]
           (mkUCB {["a" := 5%R]} {["a" := 1%Z]} 3 2 0 [1%R] [0%R] None)).
  - unfold tables_agree. cbn [_Q _N]. by rewrite !dom_singleton_L.
  - reflexivity.
Defined.

Lemma max_from_elem best rest : max_from best rest ∈ best :: rest.
Proof.
  revert best. induction rest as [|x rest IH]; intros best; simpl.
  - by left.
  - destruct (np_gtb _ _).
    + right. apply IH.
    + specialize (IH best). apply elem_of_cons in IH as [->|?].
      * by left.
      * by do 2 right.
Qed.

(** X7.  Whatever the scores, also when some are [nan]: when [select]
    returns, the action it returns is one of the candidates, and it is the
    one recorded as the last action. *)
Theorem select_returns_candidate actions s a s' :
  tables_agree s →
  select actions s = Ok a s' →
  a ∈ actions ∧ _last_thought s' = Some a.
Proof.
  intros Hs. destruct actions as [|a0 actions]; [done|].
  destruct (select_Ok a0 actions s Hs) as (s1 & -> & _).
  intros [= <- <-]. split; [|done].
  pose proof (max_from_elem (scored s a0) (scored s <$> actions)) as Hin.
  rewrite <- fmap_cons in Hin.
  apply list_elem_of_fmap in Hin as (b & -> & Hb). done.
Qed.

Lemma select_returns_candidate_witness :
  "a" ∈ ["a"]
  ∧ _last_thought
      (with_last_thought (Some "a")
         (mkUCB {["a" := 5%R]} {["a" := 0%Z]} 3 2 0 [1%R] [0%R] None))
    = Some "a".
Proof.
  apply (select_returns_candidate ["a"]
           (mkUCB {["a" := 5%R]} {["a" := 0%Z]} 3 2 0 [1%R] [0%R] None)).
  - unfold tables_agree. cbn [_Q _N]. by rewrite !dom_singleton_L.
  - reflexivity.
Defined.

Lemma values_extend_refl s : values_extend s s.
Proof. split; auto. Qed.

Lemma values_extend_trans s1 s2 s3 :
  values_extend s1 s2 → values_extend s2 s3 → values_extend s1 s3.
Proof.
  intros [Hk1 Hn1] [Hk2 Hn2]. split; [auto|].
  intros k v Hv. destruct (Hn2 k v Hv) as [H2|[H2 ->]]; [auto|].
  right. split; [|done]. destruct (_Q s1 !! k) as [w|] eqn:H1; [|done].
  apply Hk1 in H1. congruence.
Qed.

(** The object the scoring of one token leaves, returned or raised. *)
Lemma score_elem_final k s :
  final (score_elem k s)
  = if bool_decide (_Q s !! k = None)
    then with_N (insert k 0%Z) (with_Q (insert k 0%R) s)
    else s.
Proof.
  unfold score_elem, _uncertainty. unfold_M.
  destruct (bool_decide (_Q s !! k = None)) eqn:Hk; unfold_M.
  - rewrite lookup_insert_eq. unfold_M. by rewrite bool_decide_eq_true_2.
  - destruct (_N s !! k) as [n|] eqn:HN; unfold_M; [|done].
    destruct (bool_decide (n = 0)%Z); unfold_M; [done|].
    destruct (_Q s !! k) as [v|]; unfold_M; [|done].
    rewrite HN. by unfold_M.
Qed.

Lemma score_elem_values k : preserves values_extend (score_elem k).
Proof.
  intros s. rewrite score_elem_final. case_bool_decide as Hk.
  - unfold values_extend. unfold_M. split.
    + intros k' v Hv. rewrite lookup_insert_ne; [done|congruence].
    + intros k' v. destruct (decide (k = k')) as [<-|Hne].
      * rewrite lookup_insert_eq. intros [= <-]. by right.
      * rewrite lookup_insert_ne by done. by left.
  - apply values_extend_refl.
Qed.

Lemma select_values actions : preserves values_extend (select actions).
Proof.
  unfold select, _preprocess, _postprocess, py_max_key.
  apply (preserves_bind _ values_extend_trans);
    [apply (preserves_ret _ values_extend_refl)|intros l].
  apply (preserves_bind _ values_extend_trans).
  - apply (preserves_mapM _ values_extend_refl values_extend_trans).
    intros a. unfold score_action.
    apply (preserves_bind _ values_extend_trans);
      [|intros ?; apply (preserves_ret _ values_extend_refl)].
    apply (preserves_mapM _ values_extend_refl values_extend_trans).
    apply score_elem_values.
  - intros scores. apply (preserves_bind _ values_extend_trans).
    + destruct scores; [apply (preserves_raise _ values_extend_refl)
                       |apply (preserves_ret _ values_extend_refl)].
    + intros r. apply (preserves_bind _ values_extend_trans).
      * apply preserves_modify. intros s0. exact (values_extend_refl s0).
      * intros ?. apply (preserves_ret _ values_extend_refl).
Qed.

(** X8.  [select] only adds to the tables: whether it returns or raises,
    every value and count held before is held unchanged after, an entry
    that is new holds value 0 and count 0, the tables still have the same
    keys, and the timestep, exploration constant, decay rate and both
    histories are untouched. *)
Theorem select_only_adds_entries actions s :
  tables_agree s →
  values_extend s (final (select actions s))
  ∧ counts_extend s (final (select actions s))
  ∧ tables_agree (final (select actions s))
  ∧ same_hyper s (final (select actions s))
  ∧ same_histories s (final (select actions s)).
Proof.
  intros Hs. split_and!.
  - apply select_values.
  - destruct actions as [|a actions]; [by split; auto|].
    destruct (select_Ok a actions s Hs) as (s1 & -> & Hext & _).
    unfold counts_extend. unfold_M. split.
    + apply (ext_keep _ _ Hext).
    + apply (ext_new _ _ Hext).
  - destruct actions as [|a actions]; [done|].
    destruct (select_Ok a actions s Hs) as (s1 & -> & Hext & _).
    apply (ext_agree _ _ Hext).
  - apply select_hyper.
  - apply select_histories.
Qed.

Lemma select_only_adds_entries_witness :
  values_extend
    (mkUCB {["a" := 5%R]} {["a" := 1%Z]} 3 2 0 [1%R] [0%R] None)
    (final (select ["a b"]
              (mkUCB {["a" := 5%R]} {["a" := 1%Z]} 3 2 0 [1%R] [0%R] None)))
  ∧ counts_extend
      (mkUCB {["a" := 5%R]} {["a" := 1%Z]} 3 2 0 [1%R] [0%R] None)
      (final (select ["a b"]
                (mkUCB {["a" := 5%R]} {["a" := 1%Z]} 3 2 0 [1%R] [0%R] None))).
Proof.
  destruct (select_only_adds_entries ["a b"]
              (mkUCB {["a" := 5%R]} {["a" := 1%Z]} 3 2 0 [1%R] [0%R] None))
    as (Hv & Hc & _).
  - unfold tables_agree. cbn [_Q _N]. by rewrite !dom_singleton_L.
  - split; [exact Hv|exact Hc].
Defined.

(** Scoring a token that has entries changes nothing. *)
Lemma score_elem_present k s :
  tables_agree s → is_Some (_N s !! k) →
  score_elem k s = Ok (elem_score s k) s.
Proof.
  intros Hs HN. destruct (score_elem_Ok k s Hs) as (s' & Hrun & _).
  rewrite Hrun. f_equal.
  pose proof (score_elem_final k s) as Hfinal. rewrite Hrun in Hfinal.
  simpl in Hfinal. rewrite Hfinal. rewrite bool_decide_eq_false_2; [done|].
  intros HQ. apply (tables_agree_None s k Hs) in HQ.
  rewrite HQ in HN. by destruct HN.
Qed.

Lemma score_elems_present toks s :
  tables_agree s → Forall (λ k, is_Some (_N s !! k)) toks →
  mapM score_elem toks s = Ok (elem_score s <$> toks) s.
Proof.
  intros Hs. induction toks as [|k toks IH]; intros Hall; [done|].
  apply Forall_cons in Hall as [Hk Hall]. cbn [mapM].
  rewrite (bind_Ok _ _ _ _ _ (score_elem_present k s Hs Hk)).
  by rewrite (bind_Ok _ _ _ _ _ (IH Hall)).
Qed.

Lemma score_actions_present actions s :
  tables_agree s →
  Forall (λ a, Forall (λ k, is_Some (_N s !! k)) (split a)) actions →
  mapM score_action actions s = Ok (scored s <$> actions) s.
Proof.
  intros Hs. induction actions as [|a actions IH]; intros Hall; [done|].
  apply Forall_cons in Hall as [Ha Hall]. cbn [mapM].
  unfold score_action at 1. unfold bind at 1. unfold bind at 1.
  rewrite (score_elems_present (split a) s Hs Ha). unfold_M.
  by rewrite (IH Hall).
Qed.

(** X9.  Asking again gives the same answer: when [select] has returned an
    action, a second call on the same candidates, on the object the first
    call left, returns the same action and changes nothing. *)
Theorem select_idempotent actions s a s' :
  tables_agree s →
  select actions s = Ok a s' →
  select actions s' = Ok a s'.
Proof.
  intros Hs. destruct actions as [|a0 actions]; [done|].
  destruct (select_Ok a0 actions s Hs) as (s1 & -> & Hext & Hall).
  intros [= <- <-].
  set (r := max_from (scored s a0) (scored s <$> actions)).
  set (s' := with_last_thought (Some (fst r)) s1).
  assert (tables_agree s') as Hs' by apply (ext_agree _ _ Hext).
  assert (∀ b, scored s' b = scored s b) as Hscored.
  { intros b. unfold scored. f_equal. f_equal. apply list_fmap_ext.
    intros _ k _. rewrite <- (ext_score _ _ Hext). done. }
  unfold select, _preprocess, _postprocess, py_max_key.
  unfold bind at 1. unfold ret at 1. unfold bind at 1.
  rewrite (score_actions_present (a0 :: actions) s' Hs' Hall).
  rewrite fmap_cons, Hscored.
  rewrite (list_fmap_ext (scored s') (scored s) actions)
    by (intros; apply Hscored).
  by unfold_M.
Qed.

Lemma select_idempotent_witness :
  select ["x"; "y"]
    (with_last_thought (Some "x")
       (mkUCB {["x" := 0%R; "y" := 0%R]} {["x" := 0%Z; "y" := 0%Z]}
              1 2 0 [1%R] [0%R] None))
  = Ok "x"
      (with_last_thought (Some "x")
         (mkUCB {["x" := 0%R; "y" := 0%R]} {["x" := 0%Z; "y" := 0%Z]}
                1 2 0 [1%R] [0%R] None)).
Proof.
  apply (select_idempotent ["x"; "y"]
           (mkUCB {["x" := 0%R; "y" := 0%R]} {["x" := 0%Z; "y" := 0%Z]}
                  1 2 0 [1%R] [0%R] None)).
  - unfold tables_agree. cbn [_Q _N].
    by rewrite !dom_insert_L, !dom_singleton_L.
  - reflexivity.
Defined.

(** ** One turn: [select], then [reward_thought] *)

(** X10.  A selection makes the reward that follows safe.  On a
    well-formed object whose latest state is not 0, with candidates that
    all have a token: [select] returns an action, and [reward_thought]
    called next returns too (no token of the action lacks an entry); the
    timestep has grown by 1, the reward [new state / latest state] has been
    appended, and a token of the action that occurs once in it and was
    unseen before the selection ends with count 1 and that reward as its
    value. *)
Theorem select_then_reward actions s brain_state old :
  well_formed s →
  actions ≠ [] →
  Forall (λ a, split a ≠ []) actions →
  last (_state_history s) = Some old →
  old ≠ 0%R →
  ∃ a s1 s2,
    select actions s = Ok a s1
    ∧ reward_thought brain_state s1 = Ok tt s2
    ∧ _t s2 = (_t s + 1)%Z
    ∧ _state_history s2 = _state_history s ++ [brain_state]
    ∧ _reward_history s2 = _reward_history s ++ [(brain_state / old)%R]
    ∧ ∀ k, occurrences k (split a) = 1%nat → _N s !! k = None →
        _N s2 !! k = Some 1%Z ∧ _Q s2 !! k = Some (brain_state / old)%R.
Proof.
  intros Hs Hne Hall Hold Hnz.
  destruct (select_characterised actions s Hs Hne Hall)
    as (a & s1 & before & after & Hsel & Hext & Hin & Hact & _ & _).
  destruct Hs as (Hagree & Hcounts & Ht).
  assert (a ∈ actions) as Ha.
  { rewrite Hact. apply elem_of_app. right. by left. }
  rewrite Forall_forall in Hall, Hin.
  assert (a ≠ EmptyString) as Hanz.
  { intros ->. by apply (Hall "" Ha). }
  pose proof (ext_rest _ _ Hext) as (Ht1 & _ & _ & Hsh1 & Hrh1 & _).
  set (s1' := with_last_thought (Some a) s1) in *.
  set (s1'' := with_state_history (_state_history s1' ++ [brain_state]) s1').
  assert (∀ k, k ∈ split a → tracked s1'' k) as Htr.
  { intros k Hk. specialize (Hin a Ha). rewrite Forall_forall in Hin.
    destruct (Hin k Hk) as [n Hn]. unfold tracked. cbn [_Q _N s1'' s1'].
    unfold_M. split.
    - pose proof (ext_agree _ _ Hext) as Hag1. unfold tables_agree in Hag1.
      change (is_Some (_Q s1 !! k)).
      apply elem_of_dom. rewrite Hag1. apply elem_of_dom. by eexists.
    - exists n. split; [done|].
      destruct (ext_new _ _ Hext k n Hn) as [Hk0|[_ ->]]; [|done].
      by apply (Hcounts k n). }
  destruct (update_utility_Ok a (brain_state / old) s1'' Htr)
    as (s2 & Hupd & Ht2 & _ & _ & Hsh2 & Hrh2 & _ & _ & _ & Honce).
  exists a, s1', (with_reward_history
                    (_reward_history s2 ++ [(brain_state / old)%R]) s2).
  split; [done|]. split.
  { rewrite reward_thought_unfold. cbv zeta. fold s1''.
    assert (_last_thought s1' = Some a) as -> by done.
    assert (last (_state_history s1') = Some old) as ->.
    { unfold s1'. unfold_M. by rewrite Hsh1. }
    rewrite truthy_Some, decide_False by done. by rewrite Hupd. }
  unfold_M. rewrite Hsh2, Hrh2, Ht2. unfold s1'', s1'. unfold_M.
  rewrite Hsh1, Hrh1, Ht1. split_and!; [done..|].
  intros k Hocc Hnew.
  assert (k ∈ split a) as Hk.
  { destruct (decide (k ∈ split a)) as [|Hnin]; [done|].
    apply occurrences_0 in Hnin. lia. }
  destruct (Htr k Hk) as [[q HQ] (n & HN & _)].
  assert (n = 0%Z) as ->.
  { unfold s1'', s1' in HN. unfold_M.
    destruct (ext_new _ _ Hext k n HN) as [Hk0|[_ ->]]; [congruence|done]. }
  destruct (Honce k q 0%Z Hocc HQ HN) as [HN2 HQ2].
  split; [done|]. rewrite HQ2. change (0 + 1)%Z with 1%Z.
  apply (f_equal Some). lra.
Qed.

Lemma select_then_reward_witness :
  ∃ a s1 s2,
    select ["greet"] (mkUCB ∅ ∅ 1 2 0 [100%R] [0%R] None) = Ok a s1
    ∧ reward_thought 120 s1 = Ok tt s2
    ∧ _t s2 = 2%Z
    ∧ _state_history s2 = [100; 120]%R
    ∧ _reward_history s2 = [0; 120 / 100]%R.
Proof.
  assert (100 ≠ 0)%R as Hnz by lra.
  destruct (select_then_reward ["greet"]
              (mkUCB ∅ ∅ 1 2 0 [100%R] [0%R] None) 120 100)
    as (a & s1 & s2 & Hsel & Hrew & Ht & Hsh & Hrh & _).
  - split_and!.
    + reflexivity.
    + intros k n. cbn [_N]. by rewrite lookup_empty.
    + cbn [_t]. lia.
  - discriminate.
  - constructor; [by vm_compute|constructor].
  - reflexivity.
  - exact Hnz.
  - exists a, s1, s2.
    split_and!; [exact Hsel|exact Hrew|exact Ht|exact Hsh|exact Hrh].
Defined.

(** ** Exploration and well-formedness, as the code keeps them *)


(** X12.  Well-formedness is an invariant of use: on an object that
    [__init__] has built without loading a file (no file name, or a file
    that does not exist), after any sequence of calls of [select],
    [update_utility], [reward_thought] and [save], returned or raised,
    the two tables have the same keys, no count is negative and the
    timestep is at least 1. *)
Theorem well_formed_in_use fs brain_state savefile c tmax s0 calls :
  (∀ name, savefile = Some name → fs !! name = None) →
  __init__ fs brain_state savefile c tmax blank = Ok tt s0 →
  dom (_Q (after_calls calls s0)) = dom (_N (after_calls calls s0))
  ∧ (∀ k n, _N (after_calls calls s0) !! k = Some n → (0 <= n)%Z)
  ∧ (1 <= _t (after_calls calls s0))%Z.
Proof.
  intros Hfile Hinit.
  apply (constructed_well_formed fs brain_state c tmax).
  destruct savefile as [name|]; [|done].
  unfold __init__, load in Hinit. rewrite (Hfile name eq_refl) in Hinit.
  exact Hinit.
Qed.

Lemma well_formed_in_use_witness :
  dom (_Q (after_calls [CallSelect ["a b"]; CallUpdate "a c" 1]
             (mkUCB ∅ ∅ 1 2 (2 / 10) [100%R] [0%R] None)))
  = dom (_N (after_calls [CallSelect ["a b"]; CallUpdate "a c" 1]
               (mkUCB ∅ ∅ 1 2 (2 / 10) [100%R] [0%R] None)))
  ∧ (∀ k n, _N (after_calls [CallSelect ["a b"]; CallUpdate "a c" 1]
                  (mkUCB ∅ ∅ 1 2 (2 / 10) [100%R] [0%R] None)) !! k = Some n →
            (0 <= n)%Z)
  ∧ (1 <= _t (after_calls [CallSelect ["a b"]; CallUpdate "a c" 1]
                (mkUCB ∅ ∅ 1 2 (2 / 10) [100%R] [0%R] None)))%Z.
Proof.
  assert (10 ≠ 0)%R as Htmax by lra.
  apply (well_formed_in_use ∅ 100 None 2 10).
  - discriminate.
  - exact (__init___None ∅ 100 2 10 Htmax).
Defined.

(** ** [save] and [load]: failures, contents, composition *)

Lemma save_entry_outcome d k s :
  (∃ d', save_entry d k s = Ok d' s)
  ∨ save_entry d k s = Raise KeyError s.
Proof.
  unfold save_entry, _uncertainty. unfold_M.
  destruct (_N s !! k) as [n|] eqn:HN; unfold_M; [|by right].
  destruct (bool_decide (0 < n)%Z); unfold_M; [|left; by eexists].
  destruct (_Q s !! k) as [v|]; unfold_M; [|by right].
  rewrite HN. unfold_M. rewrite HN. unfold_M. left. by eexists.
Qed.

Lemma save_loop_outcome keys s : ∀ d,
  (∃ d', foldM save_entry d keys s = Ok d' s)
  ∨ foldM save_entry d keys s = Raise KeyError s.
Proof.
  induction keys as [|k keys IH]; intros d; [left; by exists d|].
  cbn [foldM].
  destruct (save_entry_outcome d k s) as [[d' Hk]|Hk].
  - rewrite !(bind_Ok _ _ _ _ _ Hk). apply IH.
  - rewrite !(bind_Raise _ _ _ _ _ Hk). by right.
Qed.

Lemma save_loop_missing_count keys s k : ∀ d,
  k ∈ keys → _N s !! k = None →
  foldM save_entry d keys s = Raise KeyError s.
Proof.
  induction keys as [|x keys IH]; intros d Hin HN.
  - by apply elem_of_nil in Hin.
  - cbn [foldM].
    destruct (save_entry_outcome d x s) as [[d' Hx]|Hx].
    + rewrite (bind_Ok _ _ _ _ _ Hx).
      apply elem_of_cons in Hin as [->|Hin]; [|by apply IH].
      unfold save_entry in Hx. unfold_M. by rewrite HN in Hx.
    + by rewrite (bind_Raise _ _ _ _ _ Hx).
Qed.

Lemma save_entry_raise d k s e s' :
  save_entry d k s = Raise e s' → _N s !! k = None ∨ _Q s !! k = None.
Proof.
  unfold save_entry, _uncertainty. unfold_M.
  destruct (_N s !! k) as [n|] eqn:HN; unfold_M; [|by left].
  destruct (bool_decide (0 < n)%Z); unfold_M; [|done].
  destruct (_Q s !! k) as [v|]; unfold_M; [|by right].
  rewrite HN. unfold_M. by rewrite HN.
Qed.

Lemma save_loop_raise keys s : ∀ d e s',
  foldM save_entry d keys s = Raise e s' →
  ∃ k, k ∈ keys ∧ (_N s !! k = None ∨ _Q s !! k = None).
Proof.
  induction keys as [|x keys IH]; intros d e s'; [done|].
  cbn [foldM]. destruct (save_entry_outcome d x s) as [[d' Hx]|Hx].
  - rewrite (bind_Ok _ _ _ _ _ Hx). intros Hrest.
    destruct (IH _ _ _ Hrest) as (k & Hk & Hnone).
    exists k. split; [by right|done].
  - intros _. exists x. split; [by left|]. by eapply save_entry_raise.
Qed.



(** X14.  What [save] writes when every token with a value has a count:
    the exploration constant, the timestep and the decay rate, and an
    entry exactly for the tokens whose count is positive, holding the
    value, the count and the uncertainty
    [c * sqrt (log t / count)] of the moment. *)
Theorem save_contents fs name s :
  dom (_Q s) ⊆ dom (_N s) →
  ∃ d,
    save fs name s = Ok (<[name := mkSaved (_c s) (_t s) (_decay s) d]> fs) s
    ∧ (∀ k e, d !! k = Some e ↔
         ∃ q n, _Q s !! k = Some q ∧ _N s !! k = Some n ∧ (0 < n)%Z
                ∧ e = mkEntry q n
                        (np_mul (Fin (_c s))
                           (np_sqrt (np_div_int (np_log (_t s)) n)))).
Proof.
  intros Hdom. destruct (save_Ok fs name s Hdom) as (d & Hrun & Hd).
  exists d. split; [done|]. intros k e. rewrite Hd. unfold saved_entry.
  destruct (_Q s !! k) as [q|], (_N s !! k) as [n|];
    try (split; [done|by intros (? & ? & ? & ? & _)]).
  case_bool_decide as Hn.
  - split.
    + intros [= <-]. by exists q, n.
    + by intros (? & ? & [= <-] & [= <-] & _ & ->).
  - split; [done|]. intros (? & ? & _ & [= <-] & ? & _). lia.
Qed.

Lemma save_contents_witness :
  ∃ d,
    save ∅ "ucb.json"
      (mkUCB {["a" := 3%R]} {["a" := 2%Z]} 5 2 0 [1%R] [0%R] None)
    = Ok {["ucb.json" := mkSaved 2 5 0 d]}
         (mkUCB {["a" := 3%R]} {["a" := 2%Z]} 5 2 0 [1%R] [0%R] None)
    ∧ ∃ e, d !! "a" = Some e ∧ value e = 3%R ∧ count e = 2%Z.
Proof.
  destruct (save_contents ∅ "ucb.json"
              (mkUCB {["a" := 3%R]} {["a" := 2%Z]} 5 2 0 [1%R] [0%R] None))
    as (d & Hrun & Hd).
  { cbn [_Q _N]. by rewrite !dom_singleton_L. }
  exists d. split; [exact Hrun|]. eexists. split.
  - apply Hd. exists 3%R, 2%Z. cbn [_Q _N].
    split_and!; [reflexivity|reflexivity|lia|reflexivity].
  - split; reflexivity.
Defined.

(** X15.  [load] then [save]: a document loaded into empty tables and
    saved again keeps its exploration constant, timestep and decay rate
    and, for every token, the value and count it had when the count is
    positive; an entry whose count is not positive is lost; the
    uncertainty is computed anew. *)
Theorem load_then_save fs name doc s name' :
  fs !! name = Some doc →
  _Q s = ∅ → _N s = ∅ →
  ∃ s' d,
    load fs (Some name) s = Ok tt s'
    ∧ save fs name' s'
      = Ok (<[name' := mkSaved (metadata_c doc) (metadata_t doc)
                         (metadata_decay doc) d]> fs) s'
    ∧ ∀ k, d !! k
           = match data doc !! k with
             | Some e =>
                 if bool_decide (0 < count e)%Z
                 then Some (mkEntry (value e) (count e)
                              (uncertainty_at s' (count e)))
                 else None
             | None => None
             end.
Proof.
  intros Hdoc HQ HN. eexists _. 
  rewrite (load_Some fs name doc s Hdoc), HQ, HN, !(right_id_L ∅ (∪)).
  set (s' := mkUCB _ _ _ _ _ _ _ _).
  destruct (save_Ok fs name' s') as (d & Hrun & Hd).
  { unfold s'. cbn [_Q _N]. by rewrite !dom_fmap_L. }
  exists d. split_and!; [done..|]. intros k. rewrite Hd.
  unfold saved_entry, s'. cbn [_Q _N]. rewrite !lookup_fmap.
  by destruct (data doc !! k).
Qed.

Lemma load_then_save_witness :
  ∃ s' d,
    load {["in.json" := mkSaved 2 5 0 {["a" := mkEntry 3 2 NaN]}]}
      (Some "in.json") (mkUCB ∅ ∅ 1 7 1 [1%R] [0%R] None)
    = Ok tt s'
    ∧ save {["in.json" := mkSaved 2 5 0 {["a" := mkEntry 3 2 NaN]}]}
        "out.json" s'
      = Ok (<["out.json" := mkSaved 2 5 0 d]>
              {["in.json" := mkSaved 2 5 0 {["a" := mkEntry 3 2 NaN]}]}) s'
    ∧ value <$> d !! "a" = Some 3%R
    ∧ count <$> d !! "a" = Some 2%Z.
Proof.
  destruct (load_then_save
              {["in.json" := mkSaved 2 5 0 {["a" := mkEntry 3 2 NaN]}]}
              "in.json" (mkSaved 2 5 0 {["a" := mkEntry 3 2 NaN]})
              (mkUCB ∅ ∅ 1 7 1 [1%R] [0%R] None) "out.json")
    as (s' & d & Hload & Hsave & Hd);
    [apply lookup_singleton_eq|reflexivity|reflexivity|].
  exists s', d. split_and!; [exact Hload|exact Hsave|..].
  - rewrite Hd. cbn [data]. rewrite lookup_singleton_eq. reflexivity.
  - rewrite Hd. cbn [data]. rewrite lookup_singleton_eq. reflexivity.
Defined.

(** X16.  Loading the same file a second time changes nothing. *)
Theorem load_idempotent fs name s s' :
  is_Some (fs !! name) →
  load fs (Some name) s = Ok tt s' →
  load fs (Some name) s' = Ok tt s'.
Proof.
  intros [doc Hdoc]. rewrite !(load_Some fs name doc _ Hdoc).
  intros [= <-]. cbn [_Q _N _state_history _reward_history _last_thought].
  by rewrite !(assoc_L (∪)), !(idemp_L (∪)).
Qed.

Lemma load_idempotent_witness :
  load {["ucb.json" := mkSaved 2 5 0 {["a" := mkEntry 3 2 NaN]}]}
    (Some "ucb.json")
    (mkUCB ({["a" := 3%R]} ∪ {["b" := 5%R]}) ({["a" := 2%Z]} ∪ {["b" := 3%Z]})
           5 2 0 [1%R] [0%R] None)
  = Ok tt
      (mkUCB ({["a" := 3%R]} ∪ {["b" := 5%R]})
             ({["a" := 2%Z]} ∪ {["b" := 3%Z]}) 5 2 0 [1%R] [0%R] None).
Proof.
  apply (load_idempotent
           {["ucb.json" := mkSaved 2 5 0 {["a" := mkEntry 3 2 NaN]}]}
           "ucb.json"
           (mkUCB {["b" := 5%R]} {["b" := 3%Z]} 1 2 0 [1%R] [0%R] None)).
  - rewrite lookup_singleton_eq. by eexists.
  - rewrite (load_Some _ _ _ _ (lookup_singleton_eq _ _)).
    cbn [data metadata_c metadata_t metadata_decay _Q _N _state_history
         _reward_history _last_thought].
    by rewrite !map_fmap_singleton.
Defined.

(** X17.  Construction with a saved file that exists: the exploration
    constant and horizon given to the constructor do not matter (as long
    as the horizon is not 0, for the decay rate is computed from them
    before the file is read); the object holds the document's
    hyperparameters and exactly its values and counts, the state history
    holds the evaluated state, the reward history holds 0 and no last
    action is recorded. *)
Theorem construction_from_file fs brain_state name doc c tmax :
  fs !! name = Some doc →
  tmax ≠ 0%R →
  __init__ fs brain_state (Some name) c tmax blank
  = Ok tt (mkUCB (value <$> data doc) (count <$> data doc)
             (metadata_t doc) (metadata_c doc) (metadata_decay doc)
             [brain_state] [0%R] None).
Proof.
  intros Hdoc Htmax. unfold __init__, py_div. unfold_M.
  rewrite decide_False by done. unfold_M.
  rewrite (load_Some fs name doc _ Hdoc).
  cbn [_Q _N _state_history _reward_history _last_thought].
  by rewrite !(right_id_L ∅ (∪)).
Qed.

Lemma construction_from_file_witness :
  __init__ {["ucb.json" := mkSaved 2 5 0 {["a" := mkEntry 3 2 NaN]}]}
    100 (Some "ucb.json") 9 4 blank
  = Ok tt (mkUCB (value <$> {["a" := mkEntry 3 2 NaN]})
             (count <$> {["a" := mkEntry 3 2 NaN]}) 5 2 0 [100%R] [0%R] None).
Proof.
  assert (4 ≠ 0)%R as Htmax by lra.
  exact (construction_from_file _ 100 "ucb.json" _ 9 4
           (lookup_singleton_eq _ _) Htmax).
Defined.



(** ** The confidence term and the end of exploration *)

(** X19.  The confidence term shrinks with observations: with a timestep
    of at least 1 and an exploration constant that is not negative,
    [_uncertainty] returns a real that is not negative, and the token with
    the larger positive count gets the smaller one; at timestep 1 it
    is 0. *)
Theorem uncertainty_shrinks s k k' n m :
  (1 <= _t s)%Z → (0 <= _c s)%R →
  _N s !! k = Some n → _N s !! k' = Some m →
  (0 < n)%Z → (n <= m)%Z →
  ∃ u u',
    _uncertainty k s = Ok (Fin u) s
    ∧ _uncertainty k' s = Ok (Fin u') s
    ∧ (0 <= u' <= u)%R
    ∧ (_t s = 1%Z → u = 0%R).
Proof.
  intros Ht Hc Hk Hk' Hn Hnm.
  rewrite (_uncertainty_Ok k n s Hk), (_uncertainty_Ok k' m s Hk').
  rewrite !uncertainty_at_real by lia.
  eexists _, _. split; [done|]. split; [done|]. split; [split|].
  - apply Rmult_le_pos; [done|apply sqrt_pos].
  - apply Rmult_le_compat_l; [done|]. apply sqrt_le_1_alt.
    apply Rmult_le_compat_l; [by apply ln_IZR_nonneg|].
    apply Rinv_le_contravar; [by apply (IZR_lt 0)|by apply IZR_le].
  - intros ->. rewrite ln_1. unfold Rdiv. by rewrite Rmult_0_l, sqrt_0, Rmult_0_r.
Qed.

Lemma uncertainty_shrinks_witness :
  ∃ u u',
    _uncertainty "a"
      (mkUCB {["a" := 1%R; "b" := 1%R]} {["a" := 2%Z; "b" := 8%Z]}
             5 2 0 [1%R] [0%R] None)
    = Ok (Fin u)
        (mkUCB {["a" := 1%R; "b" := 1%R]} {["a" := 2%Z; "b" := 8%Z]}
               5 2 0 [1%R] [0%R] None)
    ∧ _uncertainty "b"
        (mkUCB {["a" := 1%R; "b" := 1%R]} {["a" := 2%Z; "b" := 8%Z]}
               5 2 0 [1%R] [0%R] None)
      = Ok (Fin u')
          (mkUCB {["a" := 1%R; "b" := 1%R]} {["a" := 2%Z; "b" := 8%Z]}
                 5 2 0 [1%R] [0%R] None)
    ∧ (0 <= u' <= u)%R.
Proof.
  destruct (uncertainty_shrinks
              (mkUCB {["a" := 1%R; "b" := 1%R]} {["a" := 2%Z; "b" := 8%Z]}
                     5 2 0 [1%R] [0%R] None) "a" "b" 2 8)
    as (u & u' & Hu & Hu' & Hle & _).
  - cbn [_t]. lia.
  - cbn [_c]. lra.
  - reflexivity.
  - reflexivity.
  - lia.
  - lia.
  - exists u, u'. split; [exact Hu|]. split; [exact Hu'|exact Hle].
Defined.



(** ** [BrainEvaluator] *)

Lemma true_div_Returns x y :
  y ≠ 0%R → true_div x y = Returns (x / y)%R.
Proof. intros Hy. unfold true_div. by rewrite decide_False. Qed.

Lemma true_div_Raises x y : y = 0%R → true_div x y = Raises ZeroDivisionError.
Proof. intros ->. unfold true_div. by rewrite decide_True. Qed.

(** X21.  [evaluate_brain_state]: a metric that is not one of the four
    the chain of tests names gives [None] and no error; the only
    exception is [ZeroDivisionError], raised exactly by a ratio whose
    denominator count is 0; and with counts that are not negative every
    number returned is not negative. *)
Theorem evaluate_brain_state_cases b metric :
  (metric ∉ ["Total triples"; "Ratio claims to triples";
             "Ratio perspectives to claims"; "Ratio conflicts to claims"] →
   evaluate_brain_state b metric = Returns None)
  ∧ (∀ e, evaluate_brain_state b metric = Raises e ↔
       e = ZeroDivisionError
       ∧ ((metric = "Ratio claims to triples" ∧ count_triples b = 0%Z)
          ∨ ((metric = "Ratio perspectives to claims"
              ∨ metric = "Ratio conflicts to claims")
             ∧ count_statements b = 0%Z)))
  ∧ ((0 <= count_triples b)%Z → (0 <= count_statements b)%Z →
     (0 <= count_perspectives b)%Z →
     ∀ x, evaluate_brain_state b metric = Returns (Some x) → (0 <= x)%R).
Proof.
  assert (∀ x y : Z, (0 <= x)%Z → (0 <= y)%Z → IZR y ≠ 0%R →
            (0 <= IZR x / IZR y)%R) as Hdiv.
  { intros x y Hx Hy Hy0. apply Rmult_le_pos; [by apply (IZR_le 0)|].
    left. apply Rinv_0_lt_compat. apply (IZR_lt 0).
    destruct (decide (y = 0%Z)) as [->|]; [done|lia]. }
  assert (∀ z : Z, IZR z ≠ 0%R → z ≠ 0%Z) as Hnz by (by intros z Hz ->).
  unfold evaluate_brain_state, true_div.
  destruct (decide (metric = "Total triples")) as [->|H1].
  { split; [|split].
    - intros Hnin. exfalso. apply Hnin. by left.
    - intros e. split; [done|].
      intros [_ [[? _]|[[?|?] _]]]; discriminate.
    - intros Ht _ _ x [= <-]. by apply (IZR_le 0). }
  destruct (decide (metric = "Ratio claims to triples")) as [->|H2].
  { destruct (decide (IZR (count_triples b) = 0%R)) as [Hz|Hz].
    - split; [|split].
      + intros Hnin. exfalso. apply Hnin. right. by left.
      + intros e. split; [|by intros [-> _]].
        intros [= <-]. split; [done|]. left. split; [done|].
        by apply eq_IZR_R0.
      + by intros _ _ _ x.
    - split; [|split].
      + intros Hnin. exfalso. apply Hnin. right. by left.
      + intros e. split; [done|].
        intros [_ [[_ ?]|[[?|?] _]]]; exfalso;
          [by apply (Hnz _ Hz)|discriminate..].
      + intros Ht Hs _ x [= <-]. by apply Hdiv. }
  destruct (decide (metric = "Ratio perspectives to claims")) as [->|H3].
  { destruct (decide (IZR (count_statements b) = 0%R)) as [Hz|Hz].
    - split; [|split].
      + intros Hnin. exfalso. apply Hnin. do 2 right. by left.
      + intros e. split; [|by intros [-> _]].
        intros [= <-]. split; [done|]. right. split; [by left|].
        by apply eq_IZR_R0.
      + by intros _ _ _ x.
    - split; [|split].
      + intros Hnin. exfalso. apply Hnin. do 2 right. by left.
      + intros e. split; [done|].
        intros [_ [[? _]|[_ ?]]]; exfalso;
          [discriminate|by apply (Hnz _ Hz)].
      + intros _ Hs Hp x [= <-]. by apply Hdiv. }
  destruct (decide (metric = "Ratio conflicts to claims")) as [->|H4].
  { destruct (decide (IZR (count_statements b) = 0%R)) as [Hz|Hz].
    - split; [|split].
      + intros Hnin. exfalso. apply Hnin. do 3 right. by left.
      + intros e. split; [|by intros [-> _]].
        intros [= <-]. split; [done|]. right. split; [by right|].
        by apply eq_IZR_R0.
      + by intros _ _ _ x.
    - split; [|split].
      + intros Hnin. exfalso. apply Hnin. do 3 right. by left.
      + intros e. split; [done|].
        intros [_ [[? _]|[_ ?]]]; exfalso;
          [discriminate|by apply (Hnz _ Hz)].
      + intros _ Hs _ x [= <-]. apply Hdiv; [lia|done..]. }
  split; [done|split].
  - intros e. split; [done|].
    intros [_ [[? _]|[[?|?] _]]]; done.
  - by intros _ _ _ x.
Qed.

Lemma evaluate_brain_state_cases_witness :
  evaluate_brain_state (mkBrain 10 5 2 1 3) "Sparseness" = Returns None.
Proof.
  apply (proj1 (evaluate_brain_state_cases (mkBrain 10 5 2 1 3) "Sparseness")).
  repeat (apply not_elem_of_cons; split; [discriminate|]).
  apply not_elem_of_nil.
Defined.

Lemma len_or_0_nonneg {T} (x : option (list T)) : (0 <= len_or_0 x)%Z.
Proof. destruct x as [[|y l]|]; simpl; lia. Qed.


